(** * Contact book: field validation, records, address book, birthday window

    A shallow embedding of [contact_book.py] and of the [add_contact]
    handler of [main.py].

    - A Python [str] is a sequence of Unicode code points: [list Z].
    - A raised exception is the [Raise] case of [result]; a method that
      mutates [self] returns the new value of [self] next to its outcome.
    - Records are objects shared by reference between the address book and
      its callers: the address book maps a name to a heap location.
    - [datetime.today()] reads the clock; the reference date is an argument.
    - The library functions the program calls ([str.isdigit], [str.strip],
      [datetime.strptime], [date.replace], date arithmetic, [strftime]) are
      transcribed from CPython 3.11 ([datetime.py], [_strptime.py]) with the
      Unicode 14.0.0 character properties. *)

From Stdlib Require Import ZArith List Lia Bool.
From stdpp Require Import base tactics option list.
Import ListNotations.
Local Open Scope Z_scope.

(* ================================================================== *)
(** * Strings and character classes *)
(* ================================================================== *)

Abbreviation char := Z (only parsing).
Abbreviation str := (list Z) (only parsing).

Definition in_range (lo hi c : Z) : bool := (lo <=? c) && (c <=? hi).

Definition in_ranges (tbl : list (Z * Z)) (c : Z) : bool :=
  existsb (fun p => in_range (fst p) (snd p) c) tbl.

(** Code points of general category Nd (decimal digits): what [\d] matches
    in a [str] pattern, what [str.isdecimal] and [int] accept.  Every block
    starts at a digit zero and runs through whole decades. *)
Definition decimal_ranges : list (Z * Z) :=
  [ (48, 57); (1632, 1641); (1776, 1785); (1984, 1993); (2406, 2415);
    (2534, 2543); (2662, 2671); (2790, 2799); (2918, 2927); (3046, 3055);
    (3174, 3183); (3302, 3311); (3430, 3439); (3558, 3567); (3664, 3673);
    (3792, 3801); (3872, 3881); (4160, 4169); (4240, 4249); (6112, 6121);
    (6160, 6169); (6470, 6479); (6608, 6617); (6784, 6793); (6800, 6809);
    (6992, 7001); (7088, 7097); (7232, 7241); (7248, 7257); (42528, 42537);
    (43216, 43225); (43264, 43273); (43472, 43481); (43504, 43513);
    (43600, 43609); (44016, 44025); (65296, 65305); (66720, 66729);
    (68912, 68921); (69734, 69743); (69872, 69881); (69942, 69951);
    (70096, 70105); (70384, 70393); (70736, 70745); (70864, 70873);
    (71248, 71257); (71360, 71369); (71472, 71481); (71904, 71913);
    (72016, 72025); (72784, 72793); (73040, 73049); (73120, 73129);
    (92768, 92777); (92864, 92873); (93008, 93017); (120782, 120831);
    (123200, 123209); (123632, 123641); (125264, 125273); (130032, 130041) ].

(** Code points with Numeric_Type=Digit that are not decimal: superscripts,
    subscripts, circled and parenthesised digits and the like. *)
Definition digit_only_ranges : list (Z * Z) :=
  [ (178, 179); (185, 185); (4969, 4977); (6618, 6618); (8304, 8304);
    (8308, 8313); (8320, 8329); (9312, 9320); (9332, 9340); (9352, 9360);
    (9450, 9450); (9461, 9469); (9471, 9471); (10102, 10110); (10112, 10120);
    (10122, 10130); (68160, 68163); (69216, 69224); (69714, 69722);
    (127232, 127242) ].

(** Code points for which [str.isspace] holds; [str.strip] removes them. *)
Definition space_ranges : list (Z * Z) :=
  [ (9, 13); (28, 32); (133, 133); (160, 160); (5760, 5760); (8192, 8202);
    (8232, 8233); (8239, 8239); (8287, 8287); (12288, 12288) ].

Definition is_decimal_char (c : char) : bool := in_ranges decimal_ranges c.

Definition is_digit_char (c : char) : bool :=
  is_decimal_char c || in_ranges digit_only_ranges c.

Definition is_space_char (c : char) : bool := in_ranges space_ranges c.

Definition is_ascii_digit (c : char) : bool := in_range 48 57 c.

(** [s.isdigit()]: at least one character and every character a digit. *)
Definition isdigit (s : str) : bool :=
  match s with
  | [] => false
  | _ => forallb is_digit_char s
  end.

Fixpoint lstrip (s : str) : str :=
  match s with
  | [] => []
  | c :: r => if is_space_char c then lstrip r else s
  end.

Definition rstrip (s : str) : str := rev (lstrip (rev s)).

(** [s.strip()] *)
Definition strip (s : str) : str := rstrip (lstrip s).

Fixpoint str_eqb (a b : str) : bool :=
  match a, b with
  | [], [] => true
  | x :: a', y :: b' => (x =? y) && str_eqb a' b'
  | _, _ => false
  end.

(** Truth value of a [str]: non-empty. *)
Definition truthy (s : str) : bool :=
  match s with [] => false | _ => true end.

(* ================================================================== *)
(** * Exceptions *)
(* ================================================================== *)

(** The message texts the program and the library attach to exceptions. *)
Inductive message : Type :=
  | MsgEmptyName          (* "Ім'я контакту не може бути порожнім." *)
  | MsgPhoneFormat        (* "Номер телефону повинен складатися з 10 цифр." *)
  | MsgDateFormat         (* "Invalid date format. Use DD.MM.YYYY" *)
  | MsgPhoneNotFound      (* "Номер телефону не знайдено." *)
  | MsgEditNotFound       (* "Номер телефону для редагування не знайдено." *)
  | MsgContactNotFound    (* "Контакт не знайдено." *)
  | MsgNeedNamePhone      (* "Потрібно вказати ім'я та телефон." *)
  | MsgNoMatch            (* "time data ... does not match format ..." *)
  | MsgUnconverted        (* "unconverted data remains: ..." *)
  | MsgYearRange          (* "year ... is out of range" *)
  | MsgMonthRange         (* "month must be in 1..12" *)
  | MsgDayRange           (* "day is out of range for month" *)
  | MsgInvalidLiteral     (* "invalid literal for int() with base 10" *)
  | MsgResultRange.       (* "result out of range" *)

Inductive exn : Type :=
  | ValueError (m : message)
  | KeyError (m : message)
  | IndexError (m : message)
  | OverflowError (m : message).

Inductive result (A : Type) : Type :=
  | Ok (a : A)
  | Raise (e : exn).
Arguments Ok {A} a.
Arguments Raise {A} e.

Definition rbind {A B} (x : result A) (f : A -> result B) : result B :=
  match x with
  | Ok a => f a
  | Raise e => Raise e
  end.

Definition is_ok {A} (x : result A) : bool :=
  match x with Ok _ => true | Raise _ => false end.

Notation "'let?' x ':=' e 'in' k" := (rbind e (fun x => k))
  (at level 10, x pattern, e at level 100, k at level 200).

(* ================================================================== *)
(** * Field values: [Name] and [Phone] *)
(* ================================================================== *)

Record Name : Type := { name_value : str }.
Record Phone : Type := { phone_value : str }.

(** [Name.__init__] *)
Definition Name_init (value : str) : result Name :=
  if negb (truthy value) || negb (truthy (strip value))
  then Raise (ValueError MsgEmptyName)
  else Ok {| name_value := strip value |}.

(** [Phone.__init__] *)
Definition Phone_init (value : str) : result Phone :=
  if negb (isdigit value) || negb (Z.of_nat (length value) =? 10)
  then Raise (ValueError MsgPhoneFormat)
  else Ok {| phone_value := value |}.

(* ================================================================== *)
(** * Calendar dates ([datetime.date]) *)
(* ================================================================== *)

Record date : Type := { year : Z; month : Z; day : Z }.

Definition MINYEAR : Z := 1.
Definition MAXYEAR : Z := 9999.
Definition _MAXORDINAL : Z := 3652059.

Definition _DAYS_IN_MONTH : list Z :=
  [-1; 31; 28; 31; 30; 31; 30; 31; 31; 30; 31; 30; 31].

Definition _DAYS_BEFORE_MONTH : list Z :=
  [-1; 0; 31; 59; 90; 120; 151; 181; 212; 243; 273; 304; 334].

(** List indexing with an index known to be in range. *)
Definition index (l : list Z) (i : Z) : Z := nth (Z.to_nat i) l 0.

Definition _is_leap (y : Z) : bool :=
  (y mod 4 =? 0) && (negb (y mod 100 =? 0) || (y mod 400 =? 0)).

Definition _days_before_year (yr : Z) : Z :=
  let y := yr - 1 in
  y * 365 + y / 4 - y / 100 + y / 400.

Definition _days_in_month (y m : Z) : Z :=
  if (m =? 2) && _is_leap y then 29 else index _DAYS_IN_MONTH m.

Definition _days_before_month (y m : Z) : Z :=
  index _DAYS_BEFORE_MONTH m + (if (2 <? m) && _is_leap y then 1 else 0).

Definition _ymd2ord (y m d : Z) : Z :=
  _days_before_year y + _days_before_month y m + d.

Definition _DI400Y : Z := 146097.
Definition _DI100Y : Z := 36524.
Definition _DI4Y : Z := 1461.

Definition _ord2ymd (n0 : Z) : Z * Z * Z :=
  let n := n0 - 1 in
  let n400 := n / _DI400Y in
  let n := n mod _DI400Y in
  let yr := n400 * 400 + 1 in
  let n100 := n / _DI100Y in
  let n := n mod _DI100Y in
  let n4 := n / _DI4Y in
  let n := n mod _DI4Y in
  let n1 := n / 365 in
  let n := n mod 365 in
  let yr := yr + n100 * 100 + n4 * 4 + n1 in
  if (n1 =? 4) || (n100 =? 4) then (yr - 1, 12, 31)
  else
    let leapyear := (n1 =? 3) && (negb (n4 =? 24) || (n100 =? 3)) in
    let mo := Z.shiftr (n + 50) 5 in
    let preceding :=
      index _DAYS_BEFORE_MONTH mo + (if (2 <? mo) && leapyear then 1 else 0) in
    if n <? preceding then
      let mo' := mo - 1 in
      let preceding' :=
        preceding
        - (index _DAYS_IN_MONTH mo' + (if (mo' =? 2) && leapyear then 1 else 0)) in
      (yr, mo', n - preceding' + 1)
    else (yr, mo, n - preceding + 1).

(** [_check_date_fields], run by the [date] constructor. *)
Definition _check_date_fields (y m d : Z) : result date :=
  if negb ((MINYEAR <=? y) && (y <=? MAXYEAR)) then Raise (ValueError MsgYearRange)
  else if negb ((1 <=? m) && (m <=? 12)) then Raise (ValueError MsgMonthRange)
  else if negb ((1 <=? d) && (d <=? _days_in_month y m)) then Raise (ValueError MsgDayRange)
  else Ok {| year := y; month := m; day := d |}.

(** The dates the constructor accepts; every [date] object is one. *)
Definition valid_date (d : date) : bool :=
  (MINYEAR <=? year d) && (year d <=? MAXYEAR)
  && (1 <=? month d) && (month d <=? 12)
  && (1 <=? day d) && (day d <=? _days_in_month (year d) (month d)).

(** [d.replace(year=y)] *)
Definition replace_year (d : date) (y : Z) : result date :=
  _check_date_fields y (month d) (day d).

Definition toordinal (d : date) : Z := _ymd2ord (year d) (month d) (day d).

Definition fromordinal (n : Z) : date :=
  let '(y, m, d) := _ord2ymd n in {| year := y; month := m; day := d |}.

(** [d.weekday()]: Monday is 0, Sunday is 6. *)
Definition weekday (d : date) : Z := (toordinal d + 6) mod 7.

(** [a < b] on dates: lexicographic on (year, month, day). *)
Definition date_ltb (a b : date) : bool :=
  (year a <? year b)
  || ((year a =? year b)
      && ((month a <? month b)
          || ((month a =? month b) && (day a <? day b)))).

(** [(a - b).days] *)
Definition days_between (a b : date) : Z := toordinal a - toordinal b.

(** [d + timedelta(days=k)] *)
Definition add_days (d : date) (k : Z) : result date :=
  let o := toordinal d + k in
  if (0 <? o) && (o <=? _MAXORDINAL) then Ok (fromordinal o)
  else Raise (OverflowError MsgResultRange).

(** Decimal rendering, zero-padded to [width] digits (the value fits). *)
Fixpoint zero_padded (width : nat) (n : Z) : str :=
  match width with
  | O => []
  | S w => zero_padded w (n / 10) ++ [48 + n mod 10]
  end.

(** Decimal rendering without padding: no leading zero, for a number of at
    most [S width] digits. *)
Fixpoint decimal (width : nat) (n : Z) : str :=
  match width with
  | O => [48 + n mod 10]
  | S w => (if n <? 10 then [] else decimal w (n / 10)) ++ [48 + n mod 10]
  end.

(** [d.strftime("%d.%m.%Y")]: CPython 3.11 passes the three directives on to
    the C library's [strftime].  [%d] and [%m] give day and month as
    two-digit decimal numbers; [%Y] gives the year as a decimal number,
    which glibc does not pad: [date(999, 1, 3)] is written [03.01.999].
    From the year 1000 on the year has its four digits. *)
Definition strftime_dmY (d : date) : str :=
  zero_padded 2 (day d) ++ [46] ++ zero_padded 2 (month d) ++ [46]
  ++ decimal 3 (year d).

(* ================================================================== *)
(** * [datetime.strptime(value, "%d.%m.%Y")] *)
(* ================================================================== *)

(** The format compiles to the regular expression
    [(?P<d>3[0-1]|[1-2]\d|0[1-9]|[1-9]| [1-9])\.(?P<m>1[0-2]|0[1-9]|[1-9])\.(?P<Y>\d\d\d\d)].
    Each piece below lists, in the order the backtracking matcher tries
    them, the ways it can match a prefix: the matched text and the rest. *)

Definition alt {A} (b : bool) (x : A) : list A := if b then [x] else [].

(** [3[0-1]|[1-2]\d|0[1-9]|[1-9]| [1-9]] *)
Definition re_d (s : str) : list (str * str) :=
  match s with
  | a :: b :: r =>
      alt ((a =? 51) && in_range 48 49 b) ([a; b], r)
      ++ alt (in_range 49 50 a && is_decimal_char b) ([a; b], r)
      ++ alt ((a =? 48) && in_range 49 57 b) ([a; b], r)
      ++ alt (in_range 49 57 a) ([a], b :: r)
      ++ alt ((a =? 32) && in_range 49 57 b) ([a; b], r)
  | [a] => alt (in_range 49 57 a) ([a], [])
  | [] => []
  end.

(** [1[0-2]|0[1-9]|[1-9]] *)
Definition re_m (s : str) : list (str * str) :=
  match s with
  | a :: b :: r =>
      alt ((a =? 49) && in_range 48 50 b) ([a; b], r)
      ++ alt ((a =? 48) && in_range 49 57 b) ([a; b], r)
      ++ alt (in_range 49 57 a) ([a], b :: r)
  | [a] => alt (in_range 49 57 a) ([a], [])
  | [] => []
  end.

(** [\d\d\d\d] *)
Definition re_Y (s : str) : list (str * str) :=
  match s with
  | a :: b :: c :: d :: r =>
      alt (is_decimal_char a && is_decimal_char b
           && is_decimal_char c && is_decimal_char d) ([a; b; c; d], r)
  | _ => []
  end.

(** A literal character. *)
Definition re_lit (c : char) (s : str) : list str :=
  match s with
  | a :: r => alt (a =? c) r
  | [] => []
  end.

(** All matches of the whole pattern at the start of [s], first choice
    first: the groups d, m, Y and the text after the match. *)
Definition format_regex_matches (s : str) : list (str * str * str * str) :=
  flat_map (fun dr =>
    flat_map (fun r2 =>
      flat_map (fun mr =>
        flat_map (fun r4 =>
          map (fun yr => (fst dr, fst mr, fst yr, snd yr)) (re_Y r4))
          (re_lit 46 (snd mr)))
        (re_m r2))
      (re_lit 46 (snd dr)))
    (re_d s).

(** [format_regex.match(data_string)] *)
Definition format_regex_match (s : str) : option (str * str * str * str) :=
  hd_error (format_regex_matches s).

Definition decimal_value (c : char) : option Z :=
  match find (fun p => in_range (fst p) (snd p) c) decimal_ranges with
  | Some p => Some ((c - fst p) mod 10)
  | None => None
  end.

Fixpoint int_digits (acc : Z) (s : str) : option Z :=
  match s with
  | [] => Some acc
  | c :: r =>
      match decimal_value c with
      | Some v => int_digits (acc * 10 + v) r
      | None => None
      end
  end.

(** [int(s)] on text without sign or underscore: surrounding whitespace is
    dropped and what remains must be one or more decimal digits. *)
Definition py_int (s : str) : result Z :=
  match strip s with
  | [] => Raise (ValueError MsgInvalidLiteral)
  | t =>
      match int_digits 0 t with
      | Some n => Ok n
      | None => Raise (ValueError MsgInvalidLiteral)
      end
  end.

Definition strptime_dmY (s : str) : result date :=
  match format_regex_match s with
  | None => Raise (ValueError MsgNoMatch)
  | Some (d, m, y, rest) =>
      if truthy rest then Raise (ValueError MsgUnconverted)
      else
        let? dv := py_int d in
        let? mv := py_int m in
        let? yv := py_int y in
        _check_date_fields yv mv dv
  end.

Record Birthday : Type := { birthday_value : str; birthday_date : date }.

(** [Birthday.__init__]: any [ValueError] of the parser is replaced. *)
Definition Birthday_init (value : str) : result Birthday :=
  match strptime_dmY value with
  | Ok dt => Ok {| birthday_value := value; birthday_date := dt |}
  | Raise (ValueError _) => Raise (ValueError MsgDateFormat)
  | Raise e => Raise e
  end.

(* ================================================================== *)
(** * [Record] *)
(* ================================================================== *)

Record record : Type :=
  { name : Name; phones : list Phone; birthday : option Birthday }.

Definition set_phones (self : record) (ps : list Phone) : record :=
  {| name := name self; phones := ps; birthday := birthday self |}.

Definition set_birthday (self : record) (b : option Birthday) : record :=
  {| name := name self; phones := phones self; birthday := b |}.

(** [Record.__init__] *)
Definition Record_init (nm : str) : result record :=
  let? n := Name_init nm in
  Ok {| name := n; phones := []; birthday := None |}.

(** A method that may mutate [self] and may raise: outcome and new [self]. *)
Definition method (A : Type) : Type := record -> result A * record.

Definition add_phone (phone_number : str) : method unit := fun self =>
  match Phone_init phone_number with
  | Ok phone => (Ok tt, set_phones self (phones self ++ [phone]))
  | Raise e => (Raise e, self)
  end.

Fixpoint find_phone_in (ps : list Phone) (phone_number : str) : option Phone :=
  match ps with
  | [] => None
  | phone :: rest =>
      if str_eqb (phone_value phone) phone_number then Some phone
      else find_phone_in rest phone_number
  end.

Definition find_phone (self : record) (phone_number : str) : option Phone :=
  find_phone_in (phones self) phone_number.

(** [list.remove(x)]: drop the first element equal to [x].  [Phone] defines
    no [__eq__], so the element dropped is the object [find_phone] returned,
    which is the first element carrying that value. *)
Fixpoint list_remove (x : Phone) (ps : list Phone) : list Phone :=
  match ps with
  | [] => []
  | p :: rest =>
      if str_eqb (phone_value p) (phone_value x) then rest
      else p :: list_remove x rest
  end.

(** [Record.remove_phone]; a [Phone] object is always true in [if]. *)
Definition remove_phone (phone_number : str) : method unit := fun self =>
  match find_phone self phone_number with
  | Some phone_to_remove =>
      (Ok tt, set_phones self (list_remove phone_to_remove (phones self)))
  | None => (Raise (ValueError MsgPhoneNotFound), self)
  end.

(** The [for i, p in enumerate(self.phones)] loop of [edit_phone], from
    index [i] on, [ps] being the elements not yet visited. *)
Fixpoint edit_phone_loop (i : nat) (ps : list Phone)
    (old_phone_number new_phone_number : str) : method unit := fun self =>
  match ps with
  | [] => (Raise (ValueError MsgEditNotFound), self)
  | p :: rest =>
      if str_eqb (phone_value p) old_phone_number then
        match Phone_init new_phone_number with
        | Ok q => (Ok tt, set_phones self (<[i := q]> (phones self)))
        | Raise e => (Raise e, self)
        end
      else edit_phone_loop (S i) rest old_phone_number new_phone_number self
  end.

Definition edit_phone (old_phone_number new_phone_number : str) : method unit :=
  fun self => edit_phone_loop 0 (phones self) old_phone_number new_phone_number self.

Definition add_birthday (bd : str) : method unit := fun self =>
  match Birthday_init bd with
  | Ok b => (Ok tt, set_birthday self (Some b))
  | Raise e => (Raise e, self)
  end.

(* ================================================================== *)
(** * Objects, the dictionary and [AddressBook] *)
(* ================================================================== *)

(** An insertion-ordered [dict] with [str] keys. *)
Section Dict.
Context {V : Type}.

Fixpoint dict_get (d : list (str * V)) (k : str) : option V :=
  match d with
  | [] => None
  | (k', v) :: rest => if str_eqb k' k then Some v else dict_get rest k
  end.

(** [d[k] = v]: an existing key keeps its position, a new one goes last. *)
Fixpoint dict_set (d : list (str * V)) (k : str) (v : V) : list (str * V) :=
  match d with
  | [] => [(k, v)]
  | (k', v') :: rest =>
      if str_eqb k' k then (k', v) :: rest else (k', v') :: dict_set rest k v
  end.

(** [del d[k]] for a key that is present. *)
Fixpoint dict_del (d : list (str * V)) (k : str) : list (str * V) :=
  match d with
  | [] => []
  | (k', v') :: rest =>
      if str_eqb k' k then rest else (k', v') :: dict_del rest k
  end.

Definition dict_contains (d : list (str * V)) (k : str) : bool :=
  match dict_get d k with Some _ => true | None => false end.

Definition dict_values (d : list (str * V)) : list V := map snd d.
End Dict.

(** A [Record] object lives at a heap location; the address book and its
    callers hold locations, so a mutation through one is seen through all. *)
Abbreviation loc := nat (only parsing).

Record state : Type := { heap : list record; data : list (str * loc) }.

Definition empty_state : state := {| heap := []; data := [] |}.

(** Computations that read and write the state and may raise. *)
Definition M (A : Type) : Type := state -> result A * state.

Definition ret {A} (a : A) : M A := fun st => (Ok a, st).

Definition raise {A} (e : exn) : M A := fun st => (Raise e, st).

Definition bind {A B} (c : M A) (k : A -> M B) : M B := fun st =>
  match c st with
  | (Ok a, st') => k a st'
  | (Raise e, st') => (Raise e, st')
  end.

Notation "'do' x '<-' c 'in' k" := (bind c (fun x => k))
  (at level 10, x name, c at level 100, k at level 200).

(** [Record(name)]: validate, then allocate a fresh object. *)
Definition Record_new (nm : str) : M loc := fun st =>
  match Record_init nm with
  | Ok r => (Ok (length (heap st)), {| heap := heap st ++ [r]; data := data st |})
  | Raise e => (Raise e, st)
  end.

(** Call a method on the object at [l] (every location held is live). *)
Definition call {A} (l : loc) (f : method A) (dflt : A) : M A := fun st =>
  match heap st !! l with
  | Some self =>
      let '(out, self') := f self in
      (out, {| heap := <[l := self']> (heap st); data := data st |})
  | None => (Ok dflt, st)
  end.

(** [AddressBook.add_record] *)
Definition add_record (rec : loc) : M unit := fun st =>
  match heap st !! rec with
  | Some r =>
      (Ok tt, {| heap := heap st;
                 data := dict_set (data st) (name_value (name r)) rec |})
  | None => (Ok tt, st)
  end.

(** [AddressBook.find] *)
Definition find (nm : str) : M (option loc) := fun st =>
  (Ok (dict_get (data st) nm), st).

(** [AddressBook.delete] *)
Definition delete (nm : str) : M unit := fun st =>
  if dict_contains (data st) nm
  then (Ok tt, {| heap := heap st; data := dict_del (data st) nm |})
  else (Raise (KeyError MsgContactNotFound), st).

(** The records of the book in iteration order: [self.data.values()]. *)
Definition records (st : state) : list record :=
  omap (fun l => heap st !! l) (dict_values (data st)).

(** The record stored under a key, if any. *)
Definition lookup_record (st : state) (nm : str) : option record :=
  match dict_get (data st) nm with
  | Some l => heap st !! l
  | None => None
  end.

(** An element of the list [get_upcoming_birthdays] returns. *)
Record entry : Type := { entry_name : str; congratulation_date : str }.

(** The body of the [for record in self.data.values()] loop for one record:
    the entry to append, if any.  [if record.birthday] tests for [None]: a
    [Birthday] object is always true. *)
Definition upcoming_entry (today : date) (r : record) : result (option entry) :=
  match birthday r with
  | None => Ok None
  | Some b =>
      let birthday_date := birthday_date b in
      let? birthday_this_year := replace_year birthday_date (year today) in
      let? birthday_this_year :=
        (if date_ltb birthday_this_year today
         then replace_year birthday_date (year today + 1)
         else Ok birthday_this_year) in
      let days_until_birthday := days_between birthday_this_year today in
      if (0 <=? days_until_birthday) && (days_until_birthday <=? 7) then
        let? congratulation :=
          (if weekday birthday_this_year =? 5 then add_days birthday_this_year 2
           else if weekday birthday_this_year =? 6 then add_days birthday_this_year 1
           else Ok birthday_this_year) in
        Ok (Some {| entry_name := name_value (name r);
                    congratulation_date := strftime_dmY congratulation |})
      else Ok None
  end.

Fixpoint upcoming_loop (today : date) (rs : list record)
    (upcoming_birthdays : list entry) : result (list entry) :=
  match rs with
  | [] => Ok upcoming_birthdays
  | r :: rest =>
      let? e := upcoming_entry today r in
      upcoming_loop today rest
        (match e with
         | Some x => upcoming_birthdays ++ [x]
         | None => upcoming_birthdays
         end)
  end.

(** [AddressBook.get_upcoming_birthdays], [today] being the reference date. *)
Definition get_upcoming_birthdays (today : date) (st : state) : result (list entry) :=
  upcoming_loop today (records st) [].

(* ================================================================== *)
(** * The [add] command of the bot ([main.py]) *)
(* ================================================================== *)

Inductive reply : Type :=
  | ContactAdded                 (* "Contact added." *)
  | ContactUpdated               (* "Contact updated." *)
  | ValueErrorText (m : message) (* "Помилка значення: ..." *)
  | IndexErrorText               (* "Недостатньо аргументів для команди." *)
  | KeyErrorText (m : message)   (* "Помилка ключа: ..." *)
  | UnexpectedText (m : message). (* "Несподівана помилка: ..." *)

(** The undecorated [add_contact]. *)
Definition add_contact_body (args : list str) : M reply :=
  match args with
  | nm :: phone :: _ =>
      do found <- find nm in
      do rm <- (match found with
                | None =>
                    do rec <- Record_new nm in
                    do _ <- add_record rec in
                    ret (rec, ContactAdded)
                | Some rec => ret (rec, ContactUpdated)
                end) in
      do _ <- (if truthy phone then call (fst rm) (add_phone phone) tt
               else ret tt) in
      ret (snd rm)
  | _ => raise (IndexError MsgNeedNamePhone)
  end.

(** The [input_error] decorator: every exception becomes a reply text. *)
Definition input_error (func : M reply) : state -> reply * state := fun st =>
  match func st with
  | (Ok r, st') => (r, st')
  | (Raise (ValueError m), st') => (ValueErrorText m, st')
  | (Raise (IndexError _), st') => (IndexErrorText, st')
  | (Raise (KeyError m), st') => (KeyErrorText m, st')
  | (Raise (OverflowError m), st') => (UnexpectedText m, st')
  end.

Definition add_contact (args : list str) : state -> reply * state :=
  input_error (add_contact_body args).

Definition is_error_reply (r : reply) : bool :=
  match r with
  | ContactAdded | ContactUpdated => false
  | _ => true
  end.

(* ================================================================== *)
(** * Histories of a book *)
(* ================================================================== *)

(** What a caller can do with a book and with the record objects it holds
    (a location [rec] is one it created or got from [find]). *)
Inductive op : Type :=
  | OpRecord (nm : str)                    (* Record(nm) *)
  | OpAddRecord (rec : loc)                (* book.add_record(rec) *)
  | OpDelete (nm : str)                    (* book.delete(nm) *)
  | OpAddPhone (rec : loc) (p : str)       (* rec.add_phone(p) *)
  | OpRemovePhone (rec : loc) (p : str)    (* rec.remove_phone(p) *)
  | OpEditPhone (rec : loc) (o n : str)    (* rec.edit_phone(o, n) *)
  | OpAddBirthday (rec : loc) (b : str)    (* rec.add_birthday(b) *)
  | OpAddContact (args : list str).        (* add_contact(args, book) *)

(** The state an operation leaves, whether it returns or raises. *)
Definition run (o : op) (st : state) : state :=
  match o with
  | OpRecord nm => snd (Record_new nm st)
  | OpAddRecord rec => snd (add_record rec st)
  | OpDelete nm => snd (delete nm st)
  | OpAddPhone rec p => snd (call rec (add_phone p) tt st)
  | OpRemovePhone rec p => snd (call rec (remove_phone p) tt st)
  | OpEditPhone rec o n => snd (call rec (edit_phone o n) tt st)
  | OpAddBirthday rec b => snd (call rec (add_birthday b) tt st)
  | OpAddContact args => snd (add_contact args st)
  end.

Inductive reachable : state -> Prop :=
  | reachable_empty : reachable empty_state
  | reachable_step (o : op) (st : state) : reachable st -> reachable (run o st).

Definition run_all (os : list op) (st : state) : state :=
  fold_left (fun s o => run o s) os st.

(* ================================================================== *)
(** * The specification's vocabulary *)
(* ================================================================== *)

(** A birthday's month and day projected onto year [y]. *)
Definition project (b : date) (y : Z) : date :=
  {| year := y; month := month b; day := day b |}.

(** [thisYear]: the projection onto the reference year, or onto the next
    year when that falls strictly before the reference date. *)
Definition this_year (today b : date) : date :=
  if date_ltb (project b (year today)) today
  then project b (year today + 1)
  else project b (year today).

(** [daysUntil = thisYear - referenceDate] in whole days. *)
Definition days_until (today b : date) : Z :=
  toordinal (this_year today b) - toordinal today.

(** A record with a birthday whose [daysUntil] lies in the window [0, 7]. *)
Definition in_window (today : date) (r : record) : bool :=
  match birthday r with
  | None => false
  | Some b =>
      (0 <=? days_until today (birthday_date b))
      && (days_until today (birthday_date b) <=? 7)
  end.

(** Every projection the window computation makes is a calendar date. *)
Definition projectable (today b : date) : bool :=
  valid_date (project b (year today)) && valid_date (this_year today b).

Definition all_projectable (today : date) (rs : list record) : bool :=
  forallb (fun r => match birthday r with
                    | None => true
                    | Some b => projectable today (birthday_date b)
                    end) rs.

(** The congratulation date [c] of a birthday that falls on [ty]: [ty]
    itself from Monday to Friday, two days later after a Saturday, one day
    later after a Sunday, and then a Monday. *)
Definition congratulates (ty c : date) : Prop :=
  valid_date c = true
  /\ (weekday ty <= 4 -> c = ty)
  /\ (weekday ty = 5 -> toordinal c = toordinal ty + 2 /\ weekday c = 0)
  /\ (weekday ty = 6 -> toordinal c = toordinal ty + 1 /\ weekday c = 0).

(** [s] is the date [d] written DD.MM.YYYY with ASCII digits. *)
Definition written_DD_MM_YYYY (s : str) (d : date) : Prop :=
  exists d1 d2 m1 m2 y1 y2 y3 y4,
    s = [d1; d2; 46; m1; m2; 46; y1; y2; y3; y4]
    /\ forallb is_ascii_digit [d1; d2; m1; m2; y1; y2; y3; y4] = true
    /\ day d = 10 * (d1 - 48) + (d2 - 48)
    /\ month d = 10 * (m1 - 48) + (m2 - 48)
    /\ year d = 1000 * (y1 - 48) + 100 * (y2 - 48) + 10 * (y3 - 48) + (y4 - 48).

(** The number a string of ASCII digits denotes. *)
Definition numeral (ds : str) : Z :=
  fold_left (fun acc c => 10 * acc + (c - 48)) ds 0.

(** [s] is the date [d] written with a two-digit day, a two-digit month and
    the year as a decimal number without leading zeros, ASCII digits
    throughout. *)
Definition written_DD_MM_Y (s : str) (d : date) : Prop :=
  exists d1 d2 m1 m2 y1 ys,
    s = [d1; d2; 46; m1; m2; 46; y1] ++ ys
    /\ forallb is_ascii_digit ([d1; d2; m1; m2; y1] ++ ys) = true
    /\ y1 <> 48
    /\ day d = 10 * (d1 - 48) + (d2 - 48)
    /\ month d = 10 * (m1 - 48) + (m2 - 48)
    /\ year d = numeral (y1 :: ys).

(** The text of a day field the parser accepts, with its number: two digits
    01-31 (the second one any decimal digit after 1 or 2), one digit 1-9, or
    a space and one digit 1-9. *)
Definition day_field (t : str) : option Z :=
  match t with
  | [a; b] =>
      if (a =? 51) && in_range 48 49 b then Some (30 + (b - 48))
      else if in_range 49 50 a && is_decimal_char b
      then match decimal_value b with
           | Some v => Some (10 * (a - 48) + v)
           | None => None
           end
      else if (a =? 48) && in_range 49 57 b then Some (b - 48)
      else if (a =? 32) && in_range 49 57 b then Some (b - 48)
      else None
  | [a] => if in_range 49 57 a then Some (a - 48) else None
  | _ => None
  end.

(** The text of a month field: two digits 01-12 or one digit 1-9. *)
Definition month_field (t : str) : option Z :=
  match t with
  | [a; b] =>
      if (a =? 49) && in_range 48 50 b then Some (10 + (b - 48))
      else if (a =? 48) && in_range 49 57 b then Some (b - 48)
      else None
  | [a] => if in_range 49 57 a then Some (a - 48) else None
  | _ => None
  end.

(** The text of a year field: exactly four decimal digits. *)
Definition year_field (t : str) : option Z :=
  match t with
  | [a; b; c; d] =>
      match decimal_value a, decimal_value b, decimal_value c, decimal_value d with
      | Some va, Some vb, Some vc, Some vd =>
          Some (1000 * va + 100 * vb + 10 * vc + vd)
      | _, _, _, _ => None
      end
  | _ => None
  end.

(** [s] reads day.month.year and the three numbers form a calendar date. *)
Definition birthday_text (s : str) (dt : date) : Prop :=
  exists td tm ty,
    s = td ++ [46] ++ tm ++ [46] ++ ty
    /\ day_field td = Some (day dt)
    /\ month_field tm = Some (month dt)
    /\ year_field ty = Some (year dt)
    /\ valid_date dt = true.

(** The first or the last character of [s] is whitespace. *)
Definition outer_whitespace (s : str) : bool :=
  match s with
  | [] => false
  | c :: r => is_space_char c || is_space_char (List.last r c)
  end.

(* ================================================================== *)
(** * Invariants and auxiliary functions *)
(* ================================================================== *)

(** [s] does not start with whitespace. *)
Definition no_lead (s : str) : Prop :=
  match s with
  | [] => True
  | c :: _ => is_space_char c = false
  end.

(** Every key of the book leads to a live record carrying that name, and
    every name on the heap is in trimmed form. *)
Definition book_inv (st : state) : Prop :=
  (forall k l, In (k, l) (data st) ->
     exists r, heap st !! l = Some r /\ name_value (name r) = k)
  /\ (forall l r, heap st !! l = Some r ->
        strip (name_value (name r)) = name_value (name r)).

(** The record [Record(nm)] creates. *)
Definition fresh_record (nm : str) : record :=
  {| name := {| name_value := strip nm |}; phones := []; birthday := None |}.

(** The entry the loop appends for record [r] and congratulation date [c]. *)
Definition entry_of (r : record) (c : date) : entry :=
  {| entry_name := name_value (name r); congratulation_date := strftime_dmY c |}.

(** The month and day part of [_ord2ymd]: from the offset [n] of a day in
    its year and whether the year is leap. *)
Definition ord2md (leapyear : bool) (n : Z) : Z * Z :=
  let mo := Z.shiftr (n + 50) 5 in
  let preceding :=
    index _DAYS_BEFORE_MONTH mo + (if (2 <? mo) && leapyear then 1 else 0) in
  if n <? preceding then
    let mo' := mo - 1 in
    let preceding' :=
      preceding
      - (index _DAYS_IN_MONTH mo' + (if (mo' =? 2) && leapyear then 1 else 0)) in
    (mo', n - preceding' + 1)
  else (mo, n - preceding + 1).

(** [ord2md] lands on day [n + 1] of the year, inside a month. *)
Definition ord2md_ok (leapyear : bool) (n : Z) : bool :=
  let '(mo, dd) := ord2md leapyear n in
  (1 <=? mo) && (mo <=? 12) && (1 <=? dd)
  && (dd <=? (if (mo =? 2) && leapyear then 29 else index _DAYS_IN_MONTH mo))
  && (index _DAYS_BEFORE_MONTH mo + (if (2 <? mo) && leapyear then 1 else 0) + dd
      =? n + 1).

(** The offsets [0 .. k-1]. *)
Definition offsets (k : nat) : list Z := map Z.of_nat (seq 0 k).

(* ================================================================== *)
(** * Sample data *)
(* ================================================================== *)

(** Text written with code points: names, phones and dates. *)
Definition s_John : str := [74; 111; 104; 110].
Definition s_Jane : str := [74; 97; 110; 101].
Definition s_Ann : str := [65; 110; 110].
Definition s_Test : str := [84; 101; 115; 116].
Definition s_John_padded : str := [32; 74; 111; 104; 110; 32].
Definition s_123 : str := [49; 50; 51].
Definition s_1234567890 : str := [49; 50; 51; 52; 53; 54; 55; 56; 57; 48].
Definition s_5555555555 : str := [53; 53; 53; 53; 53; 53; 53; 53; 53; 53].
Definition s_29_02_2000 : str := [50; 57; 46; 48; 50; 46; 50; 48; 48; 48].
Definition s_05_01_1990 : str := [48; 53; 46; 48; 49; 46; 49; 57; 57; 48].
Definition s_01_11_1990 : str := [48; 49; 46; 49; 49; 46; 49; 57; 57; 48].
Definition s_03_11_1990 : str := [48; 51; 46; 49; 49; 46; 49; 57; 57; 48].
Definition s_01_11_2024 : str := [48; 49; 46; 49; 49; 46; 50; 48; 50; 52].
Definition s_04_11_2024 : str := [48; 52; 46; 49; 49; 46; 50; 48; 50; 52].
Definition s_1_1_2000 : str := [49; 46; 49; 46; 50; 48; 48; 48].
Definition s_32_13_2000 : str := [51; 50; 46; 49; 51; 46; 50; 48; 48; 48].
Definition s_29_02_2001 : str := [50; 57; 46; 48; 50; 46; 50; 48; 48; 49].


(** John with two phones, as an object and as the only entry of a book. *)
Definition john_two_phones : record :=
  {| name := {| name_value := s_John |};
     phones := [ {| phone_value := s_1234567890 |};
                 {| phone_value := s_5555555555 |} ];
     birthday := None |}.

Definition john_state : state :=
  {| heap := [john_two_phones]; data := [(s_John, 0%nat)] |}.

(** The book after [add John 1234567890]. *)
Definition book_with_john : state :=
  run (OpAddContact [s_John; s_1234567890]) empty_state.

(** Ann, born on 29 February 2000. *)
Definition leap_day_book : state :=
  run_all [ OpAddContact [s_Ann; s_1234567890]; OpAddBirthday 0 s_29_02_2000 ]
    empty_state.

(** Ann, born on 29 February 2000, and John, born on 5 January 1990. *)
Definition leap_day_and_john_book : state :=
  run_all [ OpAddContact [s_Ann; s_1234567890]; OpAddBirthday 0 s_29_02_2000;
            OpAddContact [s_John; s_5555555555]; OpAddBirthday 1 s_05_01_1990 ]
    empty_state.


(** John, born on 1 November 1990, and Ann, born on 3 November 1990. *)
Definition autumn_book : state :=
  run_all [ OpAddContact [s_John; s_1234567890]; OpAddBirthday 0 s_01_11_1990;
            OpAddContact [s_Ann; s_5555555555]; OpAddBirthday 1 s_03_11_1990 ]
    empty_state.

Definition day_2023_01_01 : date := {| year := 2023; month := 1; day := 1 |}.
Definition day_2024_10_28 : date := {| year := 2024; month := 10; day := 28 |}.


(* ================================================================== *)
(** * More of the bot ([main.py]) *)
(* ================================================================== *)

(** [s.split()]: the maximal runs of characters that are not whitespace;
    [word] is the run being read, last character first. *)
Fixpoint split_from (word : str) (s : str) : list str :=
  match s with
  | [] => match word with [] => [] | _ => [rev word] end
  | c :: r =>
      if is_space_char c
      then match word with
           | [] => split_from [] r
           | _ => rev word :: split_from [] r
           end
      else split_from (c :: word) r
  end.

Definition split (s : str) : list str := split_from [] s.

Section ParseInput.

(** [str.lower], with the case mapping of the Unicode database. *)
Variable lower : str -> str.

(** [parse_input] *)
Definition parse_input (user_input : str) : str * list str :=
  let parts := split (strip user_input) in
  let command := match parts with p :: _ => lower p | [] => [] end in
  let args := tl parts in
  (command, args).

End ParseInput.

(** What a decorated handler returns: one of the texts of [reply], or a
    text of its own. *)
Inductive answer : Type :=
  | Said (r : reply)
  | ContactNotFound (nm : str)   (* f"Контакт {name} не знайдено." *)
  | BirthdayAdded.               (* "Birthday added." *)

(** [input_error] around a handler that returns an [answer]. *)
Definition input_error_answer (func : M answer) : state -> answer * state := fun st =>
  match func st with
  | (Ok a, st') => (a, st')
  | (Raise (ValueError m), st') => (Said (ValueErrorText m), st')
  | (Raise (IndexError _), st') => (Said IndexErrorText, st')
  | (Raise (KeyError m), st') => (Said (KeyErrorText m), st')
  | (Raise (OverflowError m), st') => (Said (UnexpectedText m), st')
  end.

(** The body of [change_contact] once [name, old_phone, new_phone, *_ = args]
    has succeeded. *)
Definition change_contact_body (nm old_phone new_phone : str) : M answer :=
  do found <- find nm in
  match found with
  | None => ret (ContactNotFound nm)
  | Some rec =>
      do _ <- call rec (edit_phone old_phone new_phone) tt in
      ret (Said ContactUpdated)
  end.

(** The decorated [change_contact]: with fewer than three arguments the
    body raises [IndexError], which the decorator answers with its fixed
    text. *)
Definition change_contact (args : list str) : state -> answer * state :=
  match args with
  | nm :: old_phone :: new_phone :: _ =>
      input_error_answer (change_contact_body nm old_phone new_phone)
  | _ => fun st => (Said IndexErrorText, st)
  end.

(** The body of the handler [add_birthday] of [main.py] once
    [name, birthday, *_ = args] has succeeded. *)
Definition add_birthday_body (nm bd : str) : M answer :=
  do found <- find nm in
  match found with
  | None => ret (ContactNotFound nm)
  | Some rec =>
      do _ <- call rec (add_birthday bd) tt in
      ret BirthdayAdded
  end.

(** The decorated handler [add_birthday] of [main.py] (the method of
    [Record] has the name [add_birthday] here). *)
Definition add_birthday_command (args : list str) : state -> answer * state :=
  match args with
  | nm :: bd :: _ => input_error_answer (add_birthday_body nm bd)
  | _ => fun st => (Said IndexErrorText, st)
  end.

(* ================================================================== *)
(** * Well-formed records and books *)
(* ================================================================== *)

(** A phone as [Phone.__init__] lets it through. *)
Definition phone_ok (p : Phone) : Prop :=
  length (phone_value p) = 10%nat /\ forallb is_digit_char (phone_value p) = true.

(** A birthday whose date is the one its text reads. *)
Definition birthday_ok (b : Birthday) : Prop :=
  birthday_text (birthday_value b) (birthday_date b).

Definition record_ok (r : record) : Prop :=
  name_value (name r) <> []
  /\ strip (name_value (name r)) = name_value (name r)
  /\ Forall phone_ok (phones r)
  /\ (forall b, birthday r = Some b -> birthday_ok b).

Definition heap_ok (st : state) : Prop :=
  forall l r, heap st !! l = Some r -> record_ok r.

(** The keys of the book in iteration order. *)
Definition keys (st : state) : list str := map fst (data st).

(** A run of characters none of which is whitespace, and not empty. *)
Definition is_word (w : str) : Prop :=
  w <> [] /\ Forall (fun c => is_space_char c = false) w.

(** [r] with one more phone at the end. *)
Definition with_phone (r : record) (p : str) : record :=
  set_phones r (phones r ++ [ {| phone_value := p |} ]).

(** The state in which the object at [l] has become [r]. *)
Definition with_object (st : state) (l : nat) (r : record) : state :=
  {| heap := <[l := r]> (heap st); data := data st |}.

(** Sample data. *)
Definition s_0987654321 : str := [48; 57; 56; 55; 54; 53; 52; 51; 50; 49].
Definition s_add_line : str :=
  [32; 65; 68; 68; 32; 32; 74; 111; 104; 110; 9; 49; 50; 51; 52; 53; 54; 55;
   56; 57; 48; 32].
Definition no_lower (s : str) : str := s.

(** John as [add John 1234567890] leaves him. *)
Definition john_one_phone : record := with_phone (fresh_record s_John) s_1234567890.

(** [sep.join(parts)] *)
Fixpoint join (sep : str) (parts : list str) : str :=
  match parts with
  | [] => []
  | [p] => p
  | p :: rest => p ++ sep ++ join sep rest
  end.

(** What the decorated handler [birthdays] returns. *)
Inductive shown : Type :=
  | Shown (text : str)
  | NoBirthdays            (* "Немає днів народження на наступному тижні." *)
  | ShownError (r : reply).

(** The decorated handler [birthdays], [today] being the reference date; its
    arguments are not used and the book is only read. *)
Definition birthdays (today : date) (st : state) : shown :=
  match get_upcoming_birthdays today st with
  | Ok [] => NoBirthdays
  | Ok upcoming =>
      Shown (join [10]
               (map (fun item => entry_name item ++ [58; 32] ++ congratulation_date item)
                  upcoming))
  | Raise (ValueError m) => ShownError (ValueErrorText m)
  | Raise (IndexError _) => ShownError IndexErrorText
  | Raise (KeyError m) => ShownError (KeyErrorText m)
  | Raise (OverflowError m) => ShownError (UnexpectedText m)
  end.

(* ================================================================== *)
(** * Strings *)
(* ================================================================== *)

Lemma str_eqb_eq (a b : str) : str_eqb a b = true <-> a = b.
Proof.
  revert b. induction a as [|x a IH]; intros [|y b]; simpl; split;
    try congruence; try reflexivity.
  - rewrite andb_true_iff, Z.eqb_eq, IH. intros [-> ->]. reflexivity.
  - intros [= -> ->]. rewrite Z.eqb_refl. simpl. apply IH. reflexivity.
Qed.

Lemma str_eqb_refl (a : str) : str_eqb a a = true.
Proof. apply str_eqb_eq. reflexivity. Qed.

Lemma str_eqb_neq (a b : str) : str_eqb a b = false <-> a <> b.
Proof.
  rewrite <- str_eqb_eq. destruct (str_eqb a b); split; congruence.
Qed.

Lemma in_range_iff lo hi c : in_range lo hi c = true <-> lo <= c <= hi.
Proof. unfold in_range. rewrite andb_true_iff, !Z.leb_le. tauto. Qed.

Lemma ascii_digit_is_decimal c : is_ascii_digit c = true -> is_decimal_char c = true.
Proof.
  unfold is_ascii_digit, is_decimal_char, in_ranges, decimal_ranges.
  intros H. simpl. rewrite H. reflexivity.
Qed.

Lemma ascii_digit_is_digit c : is_ascii_digit c = true -> is_digit_char c = true.
Proof.
  intros H. unfold is_digit_char. rewrite (ascii_digit_is_decimal _ H). reflexivity.
Qed.

Lemma isdigit_forallb (s : str) :
  isdigit s = true <-> s <> [] /\ forallb is_digit_char s = true.
Proof.
  destruct s as [|c s]; simpl.
  - split; [discriminate | intros [H _]; congruence].
  - split; [intros H; split; [discriminate | exact H] | intros [_ H]; exact H].
Qed.

(* ================================================================== *)
(** * [Phone] *)
(* ================================================================== *)

Lemma Phone_init_cases (s : str) :
  (Phone_init s = Ok {| phone_value := s |}
   /\ length s = 10%nat /\ forallb is_digit_char s = true)
  \/ (Phone_init s = Raise (ValueError MsgPhoneFormat)
      /\ ~ (length s = 10%nat /\ forallb is_digit_char s = true)).
Proof.
  unfold Phone_init.
  destruct (isdigit s) eqn:Hd; simpl.
  - destruct (Z.of_nat (length s) =? 10) eqn:Hl; simpl.
    + left. apply Z.eqb_eq in Hl. apply isdigit_forallb in Hd.
      split; [reflexivity | split; [lia | tauto]].
    + right. apply Z.eqb_neq in Hl. split; [reflexivity | intros [H _]; lia].
  - right. split; [reflexivity |]. intros [Hl Hf].
    assert (isdigit s = true) as E; [| congruence].
    apply isdigit_forallb. split; [| exact Hf].
    intros ->. discriminate.
Qed.

Lemma Phone_init_raise (s : str) :
  is_ok (Phone_init s) = false -> Phone_init s = Raise (ValueError MsgPhoneFormat).
Proof.
  destruct (Phone_init_cases s) as [[E _] | [E _]]; rewrite E; simpl;
    [discriminate | reflexivity].
Qed.

(** C5, as amended: constructing a phone from [s] succeeds exactly when [s]
    has ten characters that are all digits in the sense of [str.isdigit]
    (every ASCII decimal digit is one, and so are other Unicode digits);
    on success the stored value is [s] unchanged, and every other string
    fails with the validation error. *)
Theorem Phone_init_accepts_ten_digit_characters (s : str) :
  ((exists p, Phone_init s = Ok p)
   <-> (length s = 10%nat /\ forallb is_digit_char s = true))
  /\ (forall p, Phone_init s = Ok p -> phone_value p = s)
  /\ ((~ exists p, Phone_init s = Ok p)
      <-> Phone_init s = Raise (ValueError MsgPhoneFormat))
  /\ (forall c, is_ascii_digit c = true -> is_digit_char c = true).
Proof.
  destruct (Phone_init_cases s) as [[E H] | [E H]]; rewrite E.
  - split; [| split; [| split]].
    + split; [intros _; exact H | intros _; eexists; reflexivity].
    + intros p [= <-]. reflexivity.
    + split; [| discriminate].
      intros Hn. exfalso. apply Hn. eexists. reflexivity.
    + apply ascii_digit_is_digit.
  - split; [| split; [| split]].
    + split; [intros [p Hp]; discriminate | intros H'; exfalso; exact (H H')].
    + intros p Hp. discriminate.
    + split; [reflexivity | intros _ [p Hp]; discriminate].
    + apply ascii_digit_is_digit.
Qed.

(** C5, as stated, fails: ten superscript twos (U+00B2) are accepted
    although none of them is an ASCII decimal digit. *)
Lemma Phone_init_accepts_non_ascii_digits :
  Phone_init (repeat 178 10) = Ok {| phone_value := repeat 178 10 |}
  /\ length (repeat 178 10) = 10%nat
  /\ forallb is_ascii_digit (repeat 178 10) = false
  /\ existsb is_ascii_digit (repeat 178 10) = false.
Proof. vm_compute. repeat split. Qed.

(* ================================================================== *)
(** * [Record] methods *)
(* ================================================================== *)

Lemma find_phone_in_none (ps : list Phone) (p : str) :
  find_phone_in ps p = None <-> ~ In p (map phone_value ps).
Proof.
  induction ps as [|q ps IH]; simpl.
  - tauto.
  - destruct (str_eqb (phone_value q) p) eqn:E.
    + apply str_eqb_eq in E. split; [discriminate | intros H; exfalso; tauto].
    + apply str_eqb_neq in E. rewrite IH. tauto.
Qed.

Lemma edit_phone_loop_invalid (new old : str) (self : record) (ps : list Phone) (i : nat) :
  In old (map phone_value ps) ->
  is_ok (Phone_init new) = false ->
  edit_phone_loop i ps old new self = (Raise (ValueError MsgPhoneFormat), self).
Proof.
  intros Hin Hbad. revert i. induction ps as [|p ps IH]; intros i; simpl.
  - destruct Hin.
  - destruct (str_eqb (phone_value p) old) eqn:E.
    + rewrite (Phone_init_raise _ Hbad). reflexivity.
    + apply str_eqb_neq in E. destruct Hin as [Hin | Hin]; [congruence |].
      apply IH. exact Hin.
Qed.

(** C7: when the record holds [old] and [new] is malformed, [edit_phone]
    raises the validation error and leaves the record, hence its phone
    sequence, exactly as it was. *)
Theorem edit_phone_invalid_leaves_record (self : record) (old new : str) :
  In old (map phone_value (phones self)) ->
  is_ok (Phone_init new) = false ->
  edit_phone old new self = (Raise (ValueError MsgPhoneFormat), self)
  /\ phones (snd (edit_phone old new self)) = phones self.
Proof.
  intros Hin Hbad. unfold edit_phone.
  rewrite (edit_phone_loop_invalid new old self _ 0%nat Hin Hbad).
  split; reflexivity.
Qed.

Lemma edit_phone_invalid_leaves_record_witness :
  edit_phone s_5555555555 s_123 john_two_phones
    = (Raise (ValueError MsgPhoneFormat), john_two_phones)
  /\ phones (snd (edit_phone s_5555555555 s_123 john_two_phones))
     = phones john_two_phones.
Proof.
  apply (edit_phone_invalid_leaves_record john_two_phones s_5555555555 s_123).
  - simpl. right. left. reflexivity.
  - reflexivity.
Defined.

Lemma dict_get_none {V} (d : list (str * V)) (k : str) :
  dict_get d k = None <-> ~ In k (map fst d).
Proof.
  induction d as [|[k' v] d IH]; simpl.
  - tauto.
  - destruct (str_eqb k' k) eqn:E.
    + apply str_eqb_eq in E. split; [discriminate | intros H; exfalso; tauto].
    + apply str_eqb_neq in E. rewrite IH. tauto.
Qed.

(** C8: removing a phone the record does not hold raises the not-found
    error and leaves the record unchanged; deleting a name that is not a
    key of the book raises the not-found error and leaves the book
    unchanged. *)
Theorem absent_key_not_found (self : record) (p : str) (st : state) (nm : str) :
  ~ In p (map phone_value (phones self)) ->
  ~ In nm (map fst (data st)) ->
  remove_phone p self = (Raise (ValueError MsgPhoneNotFound), self)
  /\ delete nm st = (Raise (KeyError MsgContactNotFound), st).
Proof.
  intros Hp Hn. split.
  - unfold remove_phone, find_phone.
    apply find_phone_in_none in Hp. rewrite Hp. reflexivity.
  - unfold delete, dict_contains.
    apply dict_get_none in Hn. rewrite Hn. reflexivity.
Qed.

Lemma absent_key_not_found_witness :
  remove_phone s_123 john_two_phones
    = (Raise (ValueError MsgPhoneNotFound), john_two_phones)
  /\ delete s_Jane john_state = (Raise (KeyError MsgContactNotFound), john_state).
Proof.
  apply (absent_key_not_found john_two_phones s_123 john_state s_Jane).
  - simpl. intros [H | [H | []]]; discriminate.
  - simpl. intros [H | []]; discriminate.
Defined.

(* ================================================================== *)
(** * [str.strip] *)
(* ================================================================== *)

Lemma lstrip_no_lead (s : str) : no_lead (lstrip s).
Proof.
  induction s as [|c s IH]; simpl; [exact I |].
  destruct (is_space_char c) eqn:E; [exact IH | simpl; exact E].
Qed.

Lemma lstrip_fixed (s : str) : no_lead s -> lstrip s = s.
Proof.
  destruct s as [|c s]; simpl; [reflexivity |]. intros ->. reflexivity.
Qed.

Lemma lstrip_suffix (s : str) : exists sp, s = sp ++ lstrip s.
Proof.
  induction s as [|c s [sp IH]]; simpl.
  - exists []. reflexivity.
  - destruct (is_space_char c).
    + exists (c :: sp). simpl. f_equal. exact IH.
    + exists []. reflexivity.
Qed.

Lemma rstrip_prefix (s : str) : exists sp, s = rstrip s ++ sp.
Proof.
  unfold rstrip. destruct (lstrip_suffix (rev s)) as [sp E].
  exists (rev sp). rewrite <- rev_app_distr, <- E, rev_involutive. reflexivity.
Qed.

Lemma rstrip_keeps_no_lead (s : str) : no_lead s -> no_lead (rstrip s).
Proof.
  destruct (rstrip_prefix s) as [sp E]. intros H.
  destruct (rstrip s) as [|c t]; [exact I |].
  rewrite E in H. exact H.
Qed.

Lemma rstrip_no_trail (s : str) : no_lead (rev (rstrip s)).
Proof. unfold rstrip. rewrite rev_involutive. apply lstrip_no_lead. Qed.

Lemma rstrip_fixed (s : str) : no_lead (rev s) -> rstrip s = s.
Proof.
  intros H. unfold rstrip. rewrite (lstrip_fixed _ H). apply rev_involutive.
Qed.

Lemma strip_no_lead (s : str) : no_lead (strip s).
Proof. apply rstrip_keeps_no_lead, lstrip_no_lead. Qed.

Lemma strip_no_trail (s : str) : no_lead (rev (strip s)).
Proof. apply rstrip_no_trail. Qed.

Lemma strip_fixed (s : str) : no_lead s -> no_lead (rev s) -> strip s = s.
Proof.
  intros H1 H2. unfold strip. rewrite (lstrip_fixed _ H1). apply rstrip_fixed, H2.
Qed.

Lemma strip_idempotent (s : str) : strip (strip s) = strip s.
Proof. apply strip_fixed; [apply strip_no_lead | apply strip_no_trail]. Qed.

Lemma last_cons (x c : Z) (r : str) : List.last (x :: r) c = List.last r x.
Proof.
  revert x c. induction r as [|y r IH]; intros x c; [reflexivity |].
  change (List.last (x :: y :: r) c) with (List.last (y :: r) c).
  rewrite (IH y c), (IH y x). reflexivity.
Qed.

Lemma rev_head_last (c : Z) (r : str) :
  exists t, rev (c :: r) = List.last r c :: t.
Proof.
  revert c. induction r as [|x r IH]; intros c.
  - exists []. reflexivity.
  - destruct (IH x) as [t E].
    exists (t ++ [c]).
    change (rev (c :: x :: r)) with (rev (x :: r) ++ [c]).
    rewrite E, last_cons. reflexivity.
Qed.

Lemma outer_whitespace_not_fixed (s : str) :
  outer_whitespace s = true -> strip s <> s.
Proof.
  destruct s as [|c r]; simpl; [discriminate |].
  intros H E.
  pose proof (strip_no_lead (c :: r)) as H1.
  pose proof (strip_no_trail (c :: r)) as H2.
  rewrite E in H1, H2. simpl in H1.
  destruct (rev_head_last c r) as [t Et]. rewrite Et in H2. simpl in H2.
  rewrite H1, H2 in H. discriminate.
Qed.

Lemma Name_init_ok (raw : str) :
  strip raw <> [] -> Name_init raw = Ok {| name_value := strip raw |}.
Proof.
  intros H. unfold Name_init.
  destruct raw as [|c r]; [exfalso; apply H; reflexivity |].
  destruct (strip (c :: r)) eqn:E; [congruence | reflexivity].
Qed.

Lemma Name_init_trimmed (raw : str) (n : Name) :
  Name_init raw = Ok n -> name_value n = strip raw.
Proof.
  unfold Name_init.
  destruct (negb (truthy raw) || negb (truthy (strip raw))); [discriminate |].
  intros [= <-]. reflexivity.
Qed.

(* ================================================================== *)
(** * The dictionary *)
(* ================================================================== *)

Lemma dict_get_some {V} (d : list (str * V)) (k : str) (v : V) :
  dict_get d k = Some v -> In (k, v) d.
Proof.
  induction d as [|[k' v'] d IH]; simpl; [discriminate |].
  destruct (str_eqb k' k) eqn:E.
  - apply str_eqb_eq in E. intros [= ->]. left. congruence.
  - intros H. right. apply IH, H.
Qed.

Lemma dict_set_in {V} (d : list (str * V)) (k0 : str) (v0 : V) (k : str) (v : V) :
  In (k, v) (dict_set d k0 v0) -> (k = k0 /\ v = v0) \/ In (k, v) d.
Proof.
  induction d as [|[k' v'] d IH]; simpl.
  - intros [[= <- <-] | []]. left. split; reflexivity.
  - destruct (str_eqb k' k0) eqn:E; simpl.
    + apply str_eqb_eq in E. subst k'.
      intros [[= <- <-] | H]; [left; split; reflexivity | right; right; exact H].
    + intros [H | H]; [right; left; exact H |].
      destruct (IH H) as [H' | H']; [left; exact H' | right; right; exact H'].
Qed.

Lemma dict_del_in {V} (d : list (str * V)) (k0 : str) (k : str) (v : V) :
  In (k, v) (dict_del d k0) -> In (k, v) d.
Proof.
  induction d as [|[k' v'] d IH]; simpl; [tauto |].
  destruct (str_eqb k' k0); simpl; [tauto |].
  intros [H | H]; [left; exact H | right; apply IH, H].
Qed.

Lemma dict_get_set_same {V} (d : list (str * V)) (k : str) (v : V) :
  dict_get (dict_set d k v) k = Some v.
Proof.
  induction d as [|[k' v'] d IH]; simpl.
  - rewrite str_eqb_refl. reflexivity.
  - destruct (str_eqb k' k) eqn:E; simpl; rewrite E; [reflexivity | exact IH].
Qed.

(* ================================================================== *)
(** * No method renames a record *)
(* ================================================================== *)

Lemma add_phone_name p self : name (snd (add_phone p self)) = name self.
Proof. unfold add_phone. destruct (Phone_init p); reflexivity. Qed.

Lemma remove_phone_name p self : name (snd (remove_phone p self)) = name self.
Proof. unfold remove_phone. destruct (find_phone self p); reflexivity. Qed.

Lemma edit_phone_loop_name o n self ps i :
  name (snd (edit_phone_loop i ps o n self)) = name self.
Proof.
  revert i. induction ps as [|p ps IH]; intros i; simpl; [reflexivity |].
  destruct (str_eqb (phone_value p) o); [| apply IH].
  destruct (Phone_init n); reflexivity.
Qed.

Lemma edit_phone_name o n self : name (snd (edit_phone o n self)) = name self.
Proof. apply edit_phone_loop_name. Qed.

Lemma add_birthday_name b self : name (snd (add_birthday b self)) = name self.
Proof. unfold add_birthday. destruct (Birthday_init b); reflexivity. Qed.

(* ================================================================== *)
(** * The book invariant *)
(* ================================================================== *)

Lemma book_inv_empty : book_inv empty_state.
Proof.
  split; simpl.
  - intros k l [].
  - intros l r H. destruct l; discriminate.
Qed.

Lemma book_inv_Record_new nm st : book_inv st -> book_inv (snd (Record_new nm st)).
Proof.
  intros [H1 H2]. unfold Record_new, Record_init.
  destruct (Name_init nm) as [n|e] eqn:E; simpl; [| split; assumption].
  split; simpl.
  - intros k l Hin. destruct (H1 k l Hin) as [r [Hr Hn]].
    exists r. split; [| exact Hn].
    rewrite lookup_app_l; [exact Hr |]. eapply lookup_lt_Some, Hr.
  - intros l r Hl.
    apply lookup_app_Some in Hl. destruct Hl as [Hl | [_ Hl]].
    + eapply H2, Hl.
    + destruct (l - length (heap st))%nat; simpl in Hl; [| destruct n0; discriminate].
      injection Hl as <-. simpl.
      rewrite (Name_init_trimmed _ _ E). apply strip_idempotent.
Qed.

Lemma book_inv_add_record rec st : book_inv st -> book_inv (snd (add_record rec st)).
Proof.
  intros [H1 H2]. unfold add_record.
  destruct (heap st !! rec) as [r|] eqn:E; simpl; [| split; assumption].
  split; simpl; [| exact H2].
  intros k l Hin. apply dict_set_in in Hin. destruct Hin as [[-> ->] | Hin].
  - exists r. split; [exact E | reflexivity].
  - apply H1, Hin.
Qed.

Lemma book_inv_delete nm st : book_inv st -> book_inv (snd (delete nm st)).
Proof.
  intros [H1 H2]. unfold delete.
  destruct (dict_contains (data st) nm); simpl; [| split; assumption].
  split; simpl; [| exact H2].
  intros k l Hin. apply H1. eapply dict_del_in, Hin.
Qed.

Lemma book_inv_call {A} (l : nat) (f : method A) (dflt : A) st :
  (forall self, name (snd (f self)) = name self) ->
  book_inv st -> book_inv (snd (call l f dflt st)).
Proof.
  intros Hf [H1 H2]. unfold call.
  destruct (heap st !! l) as [self|] eqn:E; [| split; assumption].
  specialize (Hf self). destruct (f self) as [out self']. simpl in *.
  assert (forall l' r', <[l := self']> (heap st) !! l' = Some r' ->
            exists r, heap st !! l' = Some r /\ name r = name r') as Hins.
  { intros l' r' Hl. destruct (decide (l = l')) as [<- | Hne].
    - rewrite list_lookup_insert_eq in Hl by (eapply lookup_lt_Some, E).
      injection Hl as <-. exists self. split; [exact E | symmetry; exact Hf].
    - rewrite list_lookup_insert_ne in Hl by exact Hne.
      exists r'. split; [exact Hl | reflexivity]. }
  split; simpl.
  - intros k l' Hin. destruct (H1 k l' Hin) as [r [Hr Hn]].
    destruct (decide (l = l')) as [<- | Hne].
    + exists self'. split.
      * apply list_lookup_insert_eq. eapply lookup_lt_Some, E.
      * rewrite Hf. congruence.
    + exists r. split; [| exact Hn].
      rewrite list_lookup_insert_ne by exact Hne. exact Hr.
  - intros l' r' Hl. destruct (Hins l' r' Hl) as [r [Hr Hn]].
    rewrite <- Hn. eapply H2, Hr.
Qed.

Lemma add_contact_state args st :
  snd (add_contact args st) = snd (add_contact_body args st).
Proof.
  unfold add_contact, input_error.
  destruct (add_contact_body args st) as [[r | [m|m|m|m]] st']; reflexivity.
Qed.

Lemma bind_state_inv {A B} (c : M A) (k : A -> M B) st :
  book_inv (snd (c st)) ->
  (forall a st', book_inv st' -> book_inv (snd (k a st'))) ->
  book_inv (snd (bind c k st)).
Proof.
  intros Hc Hk. unfold bind. destruct (c st) as [[a|e] st']; simpl in *.
  - apply Hk, Hc.
  - exact Hc.
Qed.

Lemma book_inv_add_contact args st :
  book_inv st -> book_inv (snd (add_contact args st)).
Proof.
  intros H. rewrite add_contact_state. unfold add_contact_body.
  destruct args as [|nm [|phone rest]]; try exact H.
  apply bind_state_inv; [exact H |]. intros found st1 H1.
  apply bind_state_inv.
  - destruct found as [rec|]; [exact H1 |].
    apply bind_state_inv; [apply book_inv_Record_new, H1 |]. intros rec st2 H2.
    apply bind_state_inv; [apply book_inv_add_record, H2 |]. intros _ st3 H3.
    exact H3.
  - intros rm st2 H2. apply bind_state_inv.
    + destruct (truthy phone); [| exact H2].
      apply book_inv_call; [apply add_phone_name | exact H2].
    + intros _ st3 H3. exact H3.
Qed.

Lemma book_inv_run o st : book_inv st -> book_inv (run o st).
Proof.
  intros H. destruct o; simpl.
  - apply book_inv_Record_new, H.
  - apply book_inv_add_record, H.
  - apply book_inv_delete, H.
  - apply book_inv_call; [apply add_phone_name | exact H].
  - apply book_inv_call; [apply remove_phone_name | exact H].
  - apply book_inv_call; [apply edit_phone_name | exact H].
  - apply book_inv_call; [apply add_birthday_name | exact H].
  - apply book_inv_add_contact, H.
Qed.

Lemma reachable_book_inv st : reachable st -> book_inv st.
Proof.
  induction 1 as [|o st _ IH]; [apply book_inv_empty | apply book_inv_run, IH].
Qed.

(** C9: in every book reachable from the empty one by creating records,
    [add_record], [delete], the record mutators and the [add] command,
    each key leads to a record whose name is that key. *)
Theorem reachable_names_match_keys (st : state) (k : str) (l : nat) :
  reachable st ->
  dict_get (data st) k = Some l ->
  exists r, heap st !! l = Some r
            /\ lookup_record st k = Some r
            /\ name_value (name r) = k.
Proof.
  intros Hr Hk. destruct (reachable_book_inv st Hr) as [H1 _].
  destruct (H1 k l (dict_get_some _ _ _ Hk)) as [r [Hl Hn]].
  exists r. split; [exact Hl | split; [| exact Hn]].
  unfold lookup_record. rewrite Hk. exact Hl.
Qed.

Lemma reachable_names_match_keys_witness :
  exists r, heap book_with_john !! 0%nat = Some r
            /\ lookup_record book_with_john s_John = Some r
            /\ name_value (name r) = s_John.
Proof.
  apply (reachable_names_match_keys book_with_john s_John 0%nat).
  - apply reachable_step, reachable_empty.
  - reflexivity.
Defined.

(* ================================================================== *)
(** * Names are stored trimmed *)
(* ================================================================== *)

Lemma Record_new_ok (raw : str) (st : state) :
  strip raw <> [] ->
  Record_new raw st
  = (Ok (length (heap st)),
     {| heap := heap st ++ [fresh_record raw]; data := data st |}).
Proof.
  intros H. unfold Record_new, Record_init. rewrite (Name_init_ok raw H). reflexivity.
Qed.

Lemma lookup_fresh (h : list record) (r : record) : (h ++ [r]) !! length h = Some r.
Proof. apply list_lookup_middle. reflexivity. Qed.

Lemma add_record_fresh (raw : str) (st : state) :
  add_record (length (heap st))
    {| heap := heap st ++ [fresh_record raw]; data := data st |}
  = (Ok tt, {| heap := heap st ++ [fresh_record raw];
               data := dict_set (data st) (strip raw) (length (heap st)) |}).
Proof. unfold add_record. simpl. rewrite lookup_fresh. reflexivity. Qed.

Lemma untrimmed_not_key (st : state) (raw : str) (rec : nat) :
  book_inv st -> strip raw <> raw ->
  dict_get (dict_set (data st) (strip raw) rec) raw = None.
Proof.
  intros [H1 H2] Hne.
  destruct (dict_get (dict_set (data st) (strip raw) rec) raw) as [l|] eqn:E;
    [| reflexivity].
  exfalso. apply dict_get_some, dict_set_in in E.
  destruct E as [[E _] | E]; [congruence |].
  destruct (H1 raw l E) as [r [Hr Hn]].
  apply H2 in Hr. rewrite Hn in Hr. exact (Hne Hr).
Qed.

(** C10: a raw name that is not blank but starts or ends with whitespace
    yields a record that a reachable book stores under the trimmed name:
    [find] of the trimmed name returns that record, [find] of the raw
    string returns nothing. *)
Theorem untrimmed_name_is_stored_trimmed (st : state) (raw : str) :
  reachable st ->
  outer_whitespace raw = true ->
  strip raw <> [] ->
  exists rec st1 st2,
    Record_new raw st = (Ok rec, st1)
    /\ add_record rec st1 = (Ok tt, st2)
    /\ heap st2 !! rec = Some (fresh_record raw)
    /\ find (strip raw) st2 = (Ok (Some rec), st2)
    /\ find raw st2 = (Ok None, st2).
Proof.
  intros Hr Hw Hne.
  exists (length (heap st)),
    {| heap := heap st ++ [fresh_record raw]; data := data st |},
    {| heap := heap st ++ [fresh_record raw];
       data := dict_set (data st) (strip raw) (length (heap st)) |}.
  split; [apply Record_new_ok, Hne |].
  split; [apply add_record_fresh |].
  split; [apply lookup_fresh |].
  unfold find. simpl. split.
  - rewrite dict_get_set_same. reflexivity.
  - rewrite untrimmed_not_key;
      [reflexivity | apply reachable_book_inv, Hr | apply outer_whitespace_not_fixed, Hw].
Qed.

Lemma untrimmed_name_is_stored_trimmed_witness :
  exists rec st1 st2,
    Record_new s_John_padded book_with_john = (Ok rec, st1)
    /\ add_record rec st1 = (Ok tt, st2)
    /\ heap st2 !! rec = Some (fresh_record s_John_padded)
    /\ find (strip s_John_padded) st2 = (Ok (Some rec), st2)
    /\ find s_John_padded st2 = (Ok None, st2).
Proof.
  apply (untrimmed_name_is_stored_trimmed book_with_john s_John_padded).
  - apply reachable_step, reachable_empty.
  - reflexivity.
  - discriminate.
Defined.

(* ================================================================== *)
(** * The [add] command with a malformed phone *)
(* ================================================================== *)

(** For a name that is not a key, the record is created and stored before
    the phone is validated: the command answers with the error text and the
    book keeps the new record, without phones. *)
Lemma add_contact_new_name_invalid_phone (st : state) (nm phone : str) :
  dict_get (data st) nm = None ->
  strip nm <> [] ->
  phone <> [] ->
  is_ok (Phone_init phone) = false ->
  add_contact [nm; phone] st
  = (ValueErrorText MsgPhoneFormat,
     {| heap := heap st ++ [fresh_record nm];
        data := dict_set (data st) (strip nm) (length (heap st)) |}).
Proof.
  intros Hk Hn Hp Hbad.
  unfold add_contact, input_error, add_contact_body, bind, find, ret.
  rewrite Hk, (Record_new_ok nm st Hn), add_record_fresh. simpl.
  destruct phone as [|c phone]; [congruence |]. simpl.
  unfold call. simpl. rewrite lookup_fresh.
  unfold add_phone. rewrite (Phone_init_raise _ Hbad).
  rewrite list_insert_id by apply lookup_fresh. reflexivity.
Qed.

(** For a name that is a key, the phone is validated before the record is
    touched: the command answers with the error text and nothing changes. *)
Lemma add_contact_known_name_invalid_phone (st : state) (nm phone : str)
    (l : nat) (r : record) :
  dict_get (data st) nm = Some l ->
  heap st !! l = Some r ->
  phone <> [] ->
  is_ok (Phone_init phone) = false ->
  add_contact [nm; phone] st = (ValueErrorText MsgPhoneFormat, st).
Proof.
  intros Hk Hl Hp Hbad.
  unfold add_contact, input_error, add_contact_body, bind, find, ret.
  rewrite Hk. simpl.
  destruct phone as [|c phone]; [congruence |]. simpl.
  unfold call. rewrite Hl.
  unfold add_phone. rewrite (Phone_init_raise _ Hbad).
  rewrite (list_insert_id _ _ _ Hl). destruct st; reflexivity.
Qed.

(** An empty phone string is never validated: [if phone] skips it. *)
Lemma add_contact_empty_phone (st : state) (nm : str) :
  dict_get (data st) nm = None ->
  strip nm <> [] ->
  add_contact [nm; []] st
  = (ContactAdded,
     {| heap := heap st ++ [fresh_record nm];
        data := dict_set (data st) (strip nm) (length (heap st)) |}).
Proof.
  intros Hk Hn.
  unfold add_contact, input_error, add_contact_body, bind, find, ret.
  rewrite Hk, (Record_new_ok nm st Hn), add_record_fresh. reflexivity.
Qed.

(** C1 at the specification's own scenario: [add_contact(["Test", "123"])]
    on an empty book answers with the phone-format error, and afterwards the
    book has an entry for "Test" holding a record without phones. *)
Theorem add_contact_invalid_phone_keeps_new_contact :
  dict_get (data empty_state) s_Test = None
  /\ is_ok (Phone_init s_123) = false
  /\ add_contact [s_Test; s_123] empty_state
     = (ValueErrorText MsgPhoneFormat,
        {| heap := [fresh_record s_Test]; data := [(s_Test, 0%nat)] |})
  /\ lookup_record (snd (add_contact [s_Test; s_123] empty_state)) s_Test
     = Some (fresh_record s_Test).
Proof. vm_compute. repeat split. Qed.

(* ================================================================== *)
(** * The proleptic Gregorian calendar *)
(* ================================================================== *)

Lemma is_leap_true (y : Z) :
  _is_leap y = true <-> y mod 4 = 0 /\ (y mod 100 <> 0 \/ y mod 400 = 0).
Proof.
  unfold _is_leap.
  rewrite andb_true_iff, orb_true_iff, negb_true_iff, !Z.eqb_eq, Z.eqb_neq.
  tauto.
Qed.

Lemma is_leap_false (y : Z) :
  _is_leap y = false <-> y mod 4 <> 0 \/ (y mod 100 = 0 /\ y mod 400 <> 0).
Proof.
  unfold _is_leap.
  rewrite andb_false_iff, orb_false_iff, negb_false_iff, !Z.eqb_eq, !Z.eqb_neq.
  tauto.
Qed.

Ltac leap_cases y :=
  let E := fresh "Hleap" in
  destruct (_is_leap y) eqn:E;
  [apply is_leap_true in E | apply is_leap_false in E].

Ltac month_cases m :=
  let H := fresh in
  assert (m = 1 \/ m = 2 \/ m = 3 \/ m = 4 \/ m = 5 \/ m = 6 \/ m = 7
          \/ m = 8 \/ m = 9 \/ m = 10 \/ m = 11 \/ m = 12) as H by lia;
  repeat (destruct H as [H | H]; [subst m |]); [.. | subst m].

Ltac norm_index :=
  repeat match goal with
         | |- context [index ?l ?k] =>
             let v := eval vm_compute in (index l k) in
             change (index l k) with v
         | H : context [index ?l ?k] |- _ =>
             let v := eval vm_compute in (index l k) in
             change (index l k) with v in H
         end.

Lemma valid_date_iff (d : date) :
  valid_date d = true
  <-> 1 <= year d <= 9999 /\ 1 <= month d <= 12
      /\ 1 <= day d <= _days_in_month (year d) (month d).
Proof.
  unfold valid_date, MINYEAR, MAXYEAR.
  rewrite !andb_true_iff, !Z.leb_le. tauto.
Qed.

Lemma check_date_fields_ok (y m d : Z) (dt : date) :
  _check_date_fields y m d = Ok dt
  <-> dt = {| year := y; month := m; day := d |} /\ valid_date dt = true.
Proof.
  unfold _check_date_fields, valid_date.
  split.
  - destruct ((MINYEAR <=? y) && (y <=? MAXYEAR)) eqn:E1; simpl; [| discriminate].
    destruct ((1 <=? m) && (m <=? 12)) eqn:E2; simpl; [| discriminate].
    destruct ((1 <=? d) && (d <=? _days_in_month y m)) eqn:E3; simpl; [| discriminate].
    intros [= <-]. simpl. split; [reflexivity |].
    apply andb_true_iff in E1, E2, E3.
    destruct E1 as [-> ->], E2 as [-> ->], E3 as [-> ->]. reflexivity.
  - intros [-> H]. simpl in H.
    rewrite !andb_true_iff in H.
    destruct H as [[[[[-> ->] ->] ->] ->] ->]. reflexivity.
Qed.

Lemma check_date_fields_raises_ValueError (y m d : Z) (e : exn) :
  _check_date_fields y m d = Raise e -> exists msg, e = ValueError msg.
Proof.
  unfold _check_date_fields.
  repeat match goal with
         | |- context [if ?b then _ else _] => destruct b
         end; intros [= <-]; eexists; reflexivity.
Qed.

Lemma replace_year_ok (b : date) (y : Z) (d : date) :
  replace_year b y = Ok d <-> d = project b y /\ valid_date (project b y) = true.
Proof.
  unfold replace_year, project. rewrite check_date_fields_ok.
  split; intros [-> H]; split; try reflexivity; exact H.
Qed.

Lemma replace_year_valid (b : date) (y : Z) :
  valid_date (project b y) = true -> replace_year b y = Ok (project b y).
Proof. intros H. apply replace_year_ok. split; [reflexivity | exact H]. Qed.

Lemma days_before_year_succ (y : Z) :
  _days_before_year (y + 1)
  = _days_before_year y + 365 + (if _is_leap y then 1 else 0).
Proof.
  unfold _days_before_year. leap_cases y; Z.div_mod_to_equations; lia.
Qed.

Lemma days_before_year_mono (y y' : Z) :
  y <= y' -> _days_before_year y <= _days_before_year y'.
Proof.
  intros H. assert (exists k, y' = y + Z.of_nat k) as [k ->]
    by (exists (Z.to_nat (y' - y)); lia).
  clear H. induction k as [|k IH].
  - replace (y + Z.of_nat 0) with y by lia. lia.
  - replace (y + Z.of_nat (S k)) with (y + Z.of_nat k + 1) by lia.
    rewrite days_before_year_succ. destruct (_is_leap _); lia.
Qed.

Lemma day_of_year_bounds (y m d : Z) :
  1 <= m <= 12 -> 1 <= d <= _days_in_month y m ->
  1 <= _days_before_month y m + d <= 365 + (if _is_leap y then 1 else 0).
Proof.
  intros Hm Hd. unfold _days_in_month, _days_before_month in *.
  month_cases m; destruct (_is_leap y); norm_index; cbn in *; lia.
Qed.

Lemma toordinal_bounds (d : date) :
  valid_date d = true -> 1 <= toordinal d <= _MAXORDINAL.
Proof.
  rewrite valid_date_iff. intros [Hy [Hm Hd]].
  pose proof (day_of_year_bounds _ _ _ Hm Hd) as Hb.
  pose proof (days_before_year_succ (year d)) as Hs.
  pose proof (days_before_year_mono 1 (year d) ltac:(lia)) as H1.
  pose proof (days_before_year_mono (year d + 1) 10000 ltac:(lia)) as H2.
  change (_days_before_year 1) with 0 in H1.
  change (_days_before_year 10000) with 3652059 in H2.
  unfold toordinal, _ymd2ord, _MAXORDINAL. lia.
Qed.

(* ================================================================== *)
(** * [fromordinal] inverts [toordinal] *)
(* ================================================================== *)

Lemma offsets_in (k : nat) (n : Z) : 0 <= n < Z.of_nat k -> In n (offsets k).
Proof.
  intros H. unfold offsets. apply in_map_iff. exists (Z.to_nat n).
  split; [lia |]. apply in_seq. lia.
Qed.

Lemma ord2md_ok_all (leapyear : bool) (n : Z) :
  0 <= n < 365 -> ord2md_ok leapyear n = true.
Proof.
  intros H.
  assert (forallb (ord2md_ok leapyear) (offsets 365) = true) as Hall
    by (destruct leapyear; vm_compute; reflexivity).
  rewrite forallb_forall in Hall. apply Hall, offsets_in. lia.
Qed.

Lemma ord2md_spec (leapyear : bool) (n mo dd : Z) :
  0 <= n < 365 -> ord2md leapyear n = (mo, dd) ->
  1 <= mo <= 12
  /\ 1 <= dd <= (if (mo =? 2) && leapyear then 29 else index _DAYS_IN_MONTH mo)
  /\ index _DAYS_BEFORE_MONTH mo + (if (2 <? mo) && leapyear then 1 else 0) + dd
     = n + 1.
Proof.
  intros Hn E. pose proof (ord2md_ok_all leapyear n Hn) as H.
  unfold ord2md_ok in H. rewrite E in H.
  rewrite !andb_true_iff, !Z.leb_le, Z.eqb_eq in H. tauto.
Qed.

Lemma ord2ymd_eq (n0 : Z) :
  _ord2ymd n0
  = let m := n0 - 1 in
    let a := m / 146097 in
    let ra := m mod 146097 in
    let b := ra / 36524 in
    let rb := ra mod 36524 in
    let c := rb / 1461 in
    let rc := rb mod 1461 in
    let e := rc / 365 in
    let re := rc mod 365 in
    let yr := a * 400 + 1 + b * 100 + c * 4 + e in
    if (e =? 4) || (b =? 4) then (yr - 1, 12, 31)
    else
      let md := ord2md ((e =? 3) && (negb (c =? 24) || (b =? 3))) re in
      (yr, fst md, snd md).
Proof.
  unfold _ord2ymd, ord2md, _DI400Y, _DI100Y, _DI4Y. cbv zeta.
  destruct (_ || _); [reflexivity |].
  destruct (_ <? _); reflexivity.
Qed.

Lemma ord2ymd_spec (n y m d : Z) :
  1 <= n -> _ord2ymd n = (y, m, d) ->
  1 <= y /\ 1 <= m <= 12 /\ 1 <= d <= _days_in_month y m /\ _ymd2ord y m d = n.
Proof.
  intros Hn. rewrite ord2ymd_eq. cbv zeta.
  pose proof (Z.div_mod (n - 1) 146097 ltac:(lia)) as Ea.
  pose proof (Z.mod_pos_bound (n - 1) 146097 ltac:(lia)) as Ba.
  pose proof (Z.div_pos (n - 1) 146097 ltac:(lia) ltac:(lia)) as Pa.
  set (a := (n - 1) / 146097) in *. set (ra := (n - 1) mod 146097) in *.
  pose proof (Z.div_mod ra 36524 ltac:(lia)) as Eb.
  pose proof (Z.mod_pos_bound ra 36524 ltac:(lia)) as Bb.
  set (b := ra / 36524) in *. set (rb := ra mod 36524) in *.
  pose proof (Z.div_mod rb 1461 ltac:(lia)) as Ec.
  pose proof (Z.mod_pos_bound rb 1461 ltac:(lia)) as Bc.
  set (c := rb / 1461) in *. set (rc := rb mod 1461) in *.
  pose proof (Z.div_mod rc 365 ltac:(lia)) as Ee.
  pose proof (Z.mod_pos_bound rc 365 ltac:(lia)) as Be.
  set (e := rc / 365) in *. set (re := rc mod 365) in *.
  clearbody a ra b rb c rc e re.
  assert (0 <= b <= 4 /\ 0 <= c <= 24 /\ 0 <= e <= 4) as [Hb [Hc He]] by lia.
  destruct ((e =? 4) || (b =? 4)) eqn:Esp.
  - intros [= <- <- <-].
    set (y := a * 400 + 1 + b * 100 + c * 4 + e - 1).
    assert (y mod 4 = 0 /\ (y mod 100 <> 0 \/ y mod 400 = 0)
            /\ _days_before_year y + 366 = n /\ 1 <= y) as [H4 [H100 [Hdby Hy1]]].
    { apply orb_true_iff in Esp. rewrite !Z.eqb_eq in Esp.
      unfold _days_before_year. subst y.
      destruct Esp as [-> | ->]; Z.div_mod_to_equations; lia. }
    assert (_is_leap y = true) as Hl by (apply is_leap_true; tauto).
    unfold _days_in_month, _ymd2ord, _days_before_month.
    rewrite Hl. norm_index.
    change (12 =? 2) with false. change (2 <? 12) with true. cbn [andb].
    repeat split; lia.
  - apply orb_false_iff in Esp. rewrite !Z.eqb_neq in Esp.
    set (lp := (e =? 3) && (negb (c =? 24) || (b =? 3))).
    destruct (ord2md lp re) as [mo dd] eqn:Emd. simpl fst. simpl snd.
    intros [= <- <- <-].
    destruct (ord2md_spec lp re mo dd ltac:(lia) Emd) as [Hmo [Hdd Hsum]].
    set (yr := a * 400 + 1 + b * 100 + c * 4 + e) in *.
    assert (_is_leap yr = lp) as Hl.
    { subst lp yr.
      destruct ((e =? 3) && (negb (c =? 24) || (b =? 3))) eqn:El.
      - apply is_leap_true.
        rewrite andb_true_iff, orb_true_iff, negb_true_iff, !Z.eqb_eq, Z.eqb_neq in El.
        Z.div_mod_to_equations. lia.
      - apply is_leap_false.
        rewrite andb_false_iff, orb_false_iff, negb_false_iff, !Z.eqb_eq, !Z.eqb_neq in El.
        Z.div_mod_to_equations. lia. }
    assert (_days_before_year yr = 146097 * a + 36524 * b + 1461 * c + 365 * e) as Hdby.
    { subst yr. unfold _days_before_year. Z.div_mod_to_equations. lia. }
    unfold _days_in_month, _ymd2ord, _days_before_month.
    rewrite Hl, Hdby. subst yr. repeat split; try lia.
Qed.

Lemma fromordinal_valid (n : Z) :
  1 <= n <= _MAXORDINAL ->
  valid_date (fromordinal n) = true /\ toordinal (fromordinal n) = n.
Proof.
  intros Hn. unfold fromordinal, toordinal.
  destruct (_ord2ymd n) as [[y m] d] eqn:E. simpl.
  destruct (ord2ymd_spec n y m d ltac:(lia) E) as [Hy [Hm [Hd Ho]]].
  split; [| exact Ho].
  apply valid_date_iff. simpl. repeat split; try lia.
  destruct (Z_le_gt_dec y 9999) as [Hle | Hgt]; [exact Hle | exfalso].
  pose proof (days_before_year_mono 10000 y ltac:(lia)) as Hmono.
  change (_days_before_year 10000) with 3652059 in Hmono.
  pose proof (day_of_year_bounds y m d Hm Hd) as Hb.
  unfold _ymd2ord, _MAXORDINAL in *. lia.
Qed.

Lemma weekday_range (d : date) : 0 <= weekday d <= 6.
Proof. unfold weekday. pose proof (Z.mod_pos_bound (toordinal d + 6) 7). lia. Qed.

Lemma add_days_spec (d : date) (k : Z) :
  valid_date d = true -> 0 <= k -> toordinal d + k <= _MAXORDINAL ->
  exists c, add_days d k = Ok c /\ valid_date c = true
            /\ toordinal c = toordinal d + k.
Proof.
  intros Hv Hk Hmax. pose proof (toordinal_bounds d Hv) as Hb.
  unfold add_days.
  assert ((0 <? toordinal d + k) && (toordinal d + k <=? _MAXORDINAL) = true) as ->.
  { apply andb_true_iff. rewrite Z.ltb_lt, Z.leb_le. lia. }
  destruct (fromordinal_valid (toordinal d + k) ltac:(lia)) as [H1 H2].
  eexists. split; [reflexivity | split; assumption].
Qed.

(** The last Saturday and Sunday of the calendar still have a Monday after
    them: shifting a weekend day to Monday never leaves the date range. *)
Lemma weekend_shift_in_range (d : date) :
  valid_date d = true ->
  (weekday d = 5 -> toordinal d + 2 <= _MAXORDINAL)
  /\ (weekday d = 6 -> toordinal d + 1 <= _MAXORDINAL).
Proof.
  intros Hv. pose proof (toordinal_bounds d Hv) as Hb.
  unfold weekday, _MAXORDINAL in *.
  split; intros H; Z.div_mod_to_equations; lia.
Qed.

(* ================================================================== *)
(** * The birthday window *)
(* ================================================================== *)

Lemma upcoming_loop_raise (today : date) (rs : list record) (r : record) (acc : list entry) :
  In r rs -> is_ok (upcoming_entry today r) = false ->
  is_ok (upcoming_loop today rs acc) = false.
Proof.
  intros Hin Hr. revert acc. induction rs as [|x rs IH]; intros acc; [destruct Hin |].
  simpl. destruct (upcoming_entry today x) as [e|e] eqn:E; simpl; [| reflexivity].
  destruct Hin as [-> | Hin]; [rewrite E in Hr; discriminate |].
  apply IH, Hin.
Qed.

(** A record born on 29 February makes the whole computation raise when the
    reference year is not a leap year. *)
Lemma leap_day_birthday_raises (today : date) (st : state) (r : record) (b : Birthday) :
  In r (records st) -> birthday r = Some b ->
  month (birthday_date b) = 2 -> day (birthday_date b) = 29 ->
  _is_leap (year today) = false ->
  is_ok (get_upcoming_birthdays today st) = false.
Proof.
  intros Hin Hb Hm Hd Hl. unfold get_upcoming_birthdays.
  apply (upcoming_loop_raise today _ r [] Hin).
  unfold upcoming_entry. rewrite Hb. cbv zeta.
  unfold replace_year, _check_date_fields, _days_in_month.
  rewrite Hm, Hd, Hl. norm_index.
  destruct (negb _); [reflexivity |]. reflexivity.
Qed.

(** C2 at a concrete book: Ann is born on 29.02.2000 and the reference
    date is 1 January 2023; the year re-projection raises "day is out of
    range for month" and no list is returned. *)
Theorem leap_day_birthday_aborts_upcoming :
  (exists r b, records leap_day_book = [r]
               /\ birthday r = Some b
               /\ birthday_date b = {| year := 2000; month := 2; day := 29 |})
  /\ valid_date day_2023_01_01 = true
  /\ _is_leap (year day_2023_01_01) = false
  /\ replace_year {| year := 2000; month := 2; day := 29 |} 2023
     = Raise (ValueError MsgDayRange)
  /\ get_upcoming_birthdays day_2023_01_01 leap_day_book
     = Raise (ValueError MsgDayRange).
Proof.
  split; [| vm_compute; repeat split].
  eexists. eexists. vm_compute. repeat split.
Qed.

Lemma projectable_split (today b : date) :
  projectable today b = true ->
  valid_date (project b (year today)) = true
  /\ valid_date (this_year today b) = true.
Proof. unfold projectable. apply andb_true_iff. Qed.

Lemma weekday_after (d c : date) (k : Z) :
  toordinal c = toordinal d + k -> weekday d + k = 7 -> weekday c = 0.
Proof.
  unfold weekday. intros -> H. Z.div_mod_to_equations. lia.
Qed.

Lemma congratulation_date_exists (ty : date) :
  valid_date ty = true ->
  exists c,
    (if weekday ty =? 5 then add_days ty 2
     else if weekday ty =? 6 then add_days ty 1
     else Ok ty) = Ok c
    /\ congratulates ty c.
Proof.
  intros Hv. destruct (weekend_shift_in_range ty Hv) as [Hsat Hsun].
  pose proof (weekday_range ty) as Hr. unfold congratulates.
  destruct (weekday ty =? 5) eqn:E5; [apply Z.eqb_eq in E5 | apply Z.eqb_neq in E5].
  - destruct (add_days_spec ty 2 Hv ltac:(lia) (Hsat E5)) as [c [Hc [Hvc Ho]]].
    exists c. split; [exact Hc |]. split; [exact Hvc |].
    split; [lia |]. split; [| lia].
    intros _. split; [exact Ho | apply (weekday_after ty c 2 Ho); lia].
  - destruct (weekday ty =? 6) eqn:E6; [apply Z.eqb_eq in E6 | apply Z.eqb_neq in E6].
    + destruct (add_days_spec ty 1 Hv ltac:(lia) (Hsun E6)) as [c [Hc [Hvc Ho]]].
      exists c. split; [exact Hc |]. split; [exact Hvc |].
      split; [lia |]. split; [lia |].
      intros _. split; [exact Ho | apply (weekday_after ty c 1 Ho); lia].
    + exists ty. split; [reflexivity |]. split; [exact Hv |].
      split; [reflexivity | split; lia].
Qed.

(** What one turn of the loop does for a record with a birthday whose
    projections are calendar dates. *)
Lemma upcoming_entry_projectable (today : date) (r : record) (b : Birthday) :
  birthday r = Some b ->
  projectable today (birthday_date b) = true ->
  if in_window today r
  then exists c, upcoming_entry today r = Ok (Some (entry_of r c))
                 /\ congratulates (this_year today (birthday_date b)) c
  else upcoming_entry today r = Ok None.
Proof.
  intros Hb Hp. destruct (projectable_split _ _ Hp) as [H1 H2].
  unfold in_window, days_until, upcoming_entry. rewrite Hb. cbv zeta.
  rewrite (replace_year_valid _ _ H1). cbn [rbind].
  unfold this_year in *.
  destruct (date_ltb (project (birthday_date b) (year today)) today).
  - rewrite (replace_year_valid _ _ H2). cbn [rbind]. unfold days_between.
    destruct (_ && _); [| reflexivity].
    destruct (congratulation_date_exists _ H2) as [c [Hc Hcong]].
    exists c. rewrite Hc. split; [reflexivity | exact Hcong].
  - cbn [rbind]. unfold days_between.
    destruct (_ && _); [| reflexivity].
    destruct (congratulation_date_exists _ H2) as [c [Hc Hcong]].
    exists c. rewrite Hc. split; [reflexivity | exact Hcong].
Qed.

(** A turn of the loop that does not raise has made valid projections. *)
Lemma upcoming_entry_ok (today : date) (r : record) (x : option entry) :
  upcoming_entry today r = Ok x ->
  match birthday r with
  | None => x = None
  | Some b => projectable today (birthday_date b) = true
  end.
Proof.
  unfold upcoming_entry. destruct (birthday r) as [b|]; [| intros [= <-]; reflexivity].
  cbv zeta. unfold projectable, this_year.
  destruct (replace_year (birthday_date b) (year today)) as [d1|e] eqn:E1;
    [| discriminate].
  apply replace_year_ok in E1. destruct E1 as [-> Hv1]. cbn [rbind].
  rewrite Hv1. simpl.
  destruct (date_ltb (project (birthday_date b) (year today)) today).
  - destruct (replace_year (birthday_date b) (year today + 1)) as [d2|e] eqn:E2;
      [| discriminate].
    apply replace_year_ok in E2. destruct E2 as [_ Hv2]. intros _. exact Hv2.
  - intros _. exact Hv1.
Qed.

Lemma upcoming_entry_no_birthday (today : date) (r : record) :
  birthday r = None -> upcoming_entry today r = Ok None /\ in_window today r = false.
Proof. intros H. unfold upcoming_entry, in_window. rewrite H. split; reflexivity. Qed.

Lemma upcoming_loop_total (today : date) (rs : list record) (acc : list entry) :
  all_projectable today rs = true ->
  exists out,
    upcoming_loop today rs acc = Ok out
    /\ map entry_name out
       = map entry_name acc
         ++ map (fun r => name_value (name r)) (List.filter (in_window today) rs).
Proof.
  revert acc. induction rs as [|r rs IH]; intros acc Hall.
  - exists acc. simpl. rewrite app_nil_r. split; reflexivity.
  - simpl in Hall. apply andb_true_iff in Hall. destruct Hall as [Hr Hall].
    simpl. destruct (birthday r) as [b|] eqn:Hb.
    + pose proof (upcoming_entry_projectable today r b Hb Hr) as He.
      destruct (in_window today r).
      * destruct He as [c [-> _]]. cbn [rbind].
        destruct (IH (acc ++ [entry_of r c]) Hall) as [out [Ho Hn]].
        exists out. split; [exact Ho |].
        rewrite Hn, map_app, <- app_assoc. reflexivity.
      * rewrite He. cbn [rbind]. apply IH, Hall.
    + destruct (upcoming_entry_no_birthday today r Hb) as [-> ->]. cbn [rbind].
      apply IH, Hall.
Qed.

Lemma upcoming_loop_entries (today : date) (rs : list record) (acc out : list entry)
    (e : entry) :
  upcoming_loop today rs acc = Ok out -> In e out ->
  In e acc \/ exists r, In r rs /\ upcoming_entry today r = Ok (Some e).
Proof.
  revert acc. induction rs as [|r rs IH]; intros acc; simpl.
  - intros [= <-] H. left. exact H.
  - destruct (upcoming_entry today r) as [x|err] eqn:E; [| discriminate].
    cbn [rbind]. intros Hl He.
    destruct (IH _ Hl He) as [Hacc | [r' [Hin Hr']]].
    + destruct x as [x|]; [| left; exact Hacc].
      apply in_app_or in Hacc. destruct Hacc as [Hacc | [<- | []]].
      * left. exact Hacc.
      * right. exists r. split; [left; reflexivity | exact E].
    + right. exists r'. split; [right; exact Hin | exact Hr'].
Qed.

(** Conversely, a list is returned only if every projection is a date. *)
Lemma upcoming_loop_ok_projectable (today : date) (rs : list record)
    (acc out : list entry) :
  upcoming_loop today rs acc = Ok out -> all_projectable today rs = true.
Proof.
  revert acc. induction rs as [|r rs IH]; intros acc; simpl; [reflexivity |].
  destruct (upcoming_entry today r) as [x|err] eqn:E; [| discriminate].
  cbn [rbind]. intros H. apply upcoming_entry_ok in E.
  rewrite (IH _ H), andb_true_r.
  destruct (birthday r); [exact E | reflexivity].
Qed.




(* ================================================================== *)
(** * The congratulation date and its text *)
(* ================================================================== *)

Lemma days_in_month_le_31 (y m : Z) : 1 <= m <= 12 -> _days_in_month y m <= 31.
Proof.
  intros Hm. unfold _days_in_month.
  month_cases m; destruct (_is_leap y); norm_index; cbn; lia.
Qed.

Lemma ascii_digit_of_mod (n : Z) : is_ascii_digit (48 + n mod 10) = true.
Proof.
  apply in_range_iff. pose proof (Z.mod_pos_bound n 10). lia.
Qed.

Lemma strftime_written_unpadded (c : date) :
  valid_date c = true -> written_DD_MM_Y (strftime_dmY c) c.
Proof.
  rewrite valid_date_iff. intros [Hy [Hm Hd]].
  pose proof (days_in_month_le_31 (year c) (month c) Hm) as H31.
  unfold written_DD_MM_Y, strftime_dmY.
  exists (48 + (day c / 10) mod 10), (48 + day c mod 10),
         (48 + (month c / 10) mod 10), (48 + month c mod 10).
  cbn [zero_padded decimal].
  destruct (year c <? 10) eqn:E1;
    [| destruct (year c / 10 <? 10) eqn:E2;
       [| destruct (year c / 10 / 10 <? 10) eqn:E3]];
    rewrite ?Z.ltb_lt, ?Z.ltb_ge in *;
    eexists; eexists; (split; [reflexivity |]);
    (split; [cbn [forallb app]; rewrite !ascii_digit_of_mod; reflexivity |]);
    cbn [numeral fold_left];
    repeat split; Z.div_mod_to_equations; lia.
Qed.









(** The specification's two scenarios: on Monday 28 October 2024 John, born
    on 1 November, is congratulated on Friday 01.11.2024, and Ann, born on
    3 November, a Sunday, on Monday 04.11.2024. *)
Example upcoming_birthdays_autumn_2024 :
  weekday day_2024_10_28 = 0
  /\ weekday {| year := 2024; month := 11; day := 1 |} = 4
  /\ weekday {| year := 2024; month := 11; day := 3 |} = 6
  /\ get_upcoming_birthdays day_2024_10_28 autumn_book
     = Ok [ {| entry_name := s_John; congratulation_date := s_01_11_2024 |};
            {| entry_name := s_Ann; congratulation_date := s_04_11_2024 |} ].
Proof. vm_compute. repeat split. Qed.

(* ================================================================== *)
(** * Character classes *)
(* ================================================================== *)

Lemma space_char_cases (c : Z) :
  is_space_char c = true ->
  In c [9; 10; 11; 12; 13; 28; 29; 30; 31; 32; 133; 160; 5760; 8192; 8193; 8194;
        8195; 8196; 8197; 8198; 8199; 8200; 8201; 8202; 8232; 8233; 8239; 8287;
        12288].
Proof.
  unfold is_space_char, in_ranges, space_ranges, in_range. cbn [existsb fst snd].
  rewrite !orb_true_iff, !andb_true_iff, !Z.leb_le. cbn [In]. lia.
Qed.

Lemma decimal_not_space (c : Z) : is_decimal_char c = true -> is_space_char c = false.
Proof.
  intros Hd. destruct (is_space_char c) eqn:Hs; [exfalso | reflexivity].
  apply space_char_cases in Hs. cbn [In] in Hs.
  repeat (destruct Hs as [<- | Hs]; [vm_compute in Hd; discriminate |]).
  exact Hs.
Qed.

Lemma ascii_digit_not_space (c : Z) : in_range 48 57 c = true -> is_space_char c = false.
Proof. intros H. apply decimal_not_space, ascii_digit_is_decimal, H. Qed.

Lemma in_range_sub (lo hi lo' hi' c : Z) :
  lo' <= lo -> hi <= hi' -> in_range lo hi c = true -> in_range lo' hi' c = true.
Proof. rewrite !in_range_iff. lia. Qed.

Lemma decimal_value_ascii (c : Z) :
  in_range 48 57 c = true -> decimal_value c = Some (c - 48).
Proof.
  intros H. unfold decimal_value, decimal_ranges. cbn [List.find fst snd].
  rewrite H. apply in_range_iff in H. f_equal. apply Z.mod_small. lia.
Qed.

Lemma find_existsb {A} (f : A -> bool) (l : list A) :
  existsb f l = true <-> exists x, List.find f l = Some x.
Proof.
  induction l as [|a l IH]; simpl.
  - split; [discriminate | intros [x H]; discriminate].
  - destruct (f a); simpl; [split; eauto | exact IH].
Qed.

Lemma decimal_value_some (c : Z) :
  is_decimal_char c = true <-> exists v, decimal_value c = Some v.
Proof.
  unfold is_decimal_char, in_ranges, decimal_value. rewrite find_existsb.
  split.
  - intros [p ->]. eexists. reflexivity.
  - intros [v H]. destruct (List.find _ _) as [p|]; [eexists; reflexivity | discriminate].
Qed.

Lemma decimal_not_dot (c : Z) : is_decimal_char c = true -> c <> 46.
Proof. intros H ->. vm_compute in H. discriminate. Qed.

(* ================================================================== *)
(** * [int] on the matched fields *)
(* ================================================================== *)

Lemma strip_two (a b : Z) :
  is_space_char a = false -> is_space_char b = false -> strip [a; b] = [a; b].
Proof.
  intros Ha Hb. unfold strip, rstrip. simpl. rewrite Ha. simpl. rewrite Hb. reflexivity.
Qed.

Lemma strip_one (a : Z) : is_space_char a = false -> strip [a] = [a].
Proof. intros Ha. unfold strip, rstrip. simpl. rewrite Ha. simpl. rewrite Ha. reflexivity. Qed.

Lemma strip_space_one (a : Z) : is_space_char a = false -> strip [32; a] = [a].
Proof.
  intros Ha. unfold strip, rstrip.
  change (lstrip [32; a]) with (lstrip [a]). simpl. rewrite Ha. simpl. rewrite Ha.
  reflexivity.
Qed.

Lemma py_int_one (a : Z) : in_range 48 57 a = true -> py_int [a] = Ok (a - 48).
Proof.
  intros Ha. unfold py_int.
  rewrite (strip_one a (ascii_digit_not_space a Ha)). simpl.
  rewrite (decimal_value_ascii a Ha). reflexivity.
Qed.

Lemma py_int_two (a b va vb : Z) :
  decimal_value a = Some va -> decimal_value b = Some vb ->
  py_int [a; b] = Ok (10 * va + vb).
Proof.
  intros Ha Hb. unfold py_int.
  rewrite strip_two by (apply decimal_not_space, decimal_value_some; eauto).
  simpl. rewrite Ha, Hb. f_equal. lia.
Qed.

Lemma py_int_space_one (a : Z) : in_range 48 57 a = true -> py_int [32; a] = Ok (a - 48).
Proof.
  intros Ha. unfold py_int.
  rewrite (strip_space_one a (ascii_digit_not_space a Ha)). simpl.
  rewrite (decimal_value_ascii a Ha). reflexivity.
Qed.

Lemma py_int_four (a b c d va vb vc vd : Z) :
  decimal_value a = Some va -> decimal_value b = Some vb ->
  decimal_value c = Some vc -> decimal_value d = Some vd ->
  py_int [a; b; c; d] = Ok (1000 * va + 100 * vb + 10 * vc + vd).
Proof.
  intros Ha Hb Hc Hd. unfold py_int.
  assert (strip [a; b; c; d] = [a; b; c; d]) as ->.
  { apply strip_fixed; simpl.
    - apply decimal_not_space, decimal_value_some. eauto.
    - apply decimal_not_space, decimal_value_some. eauto. }
  simpl. rewrite Ha, Hb, Hc, Hd. f_equal. lia.
Qed.

(* ================================================================== *)
(** * The pieces of the date pattern *)
(* ================================================================== *)

Lemma in_range_false (lo hi c : Z) : in_range lo hi c = false <-> c < lo \/ hi < c.
Proof. unfold in_range. rewrite andb_false_iff, !Z.leb_gt. tauto. Qed.

Lemma in_alt {A} (b : bool) (x y : A) : In x (alt b y) <-> b = true /\ x = y.
Proof.
  unfold alt. destruct b; simpl.
  - split; [intros [<- | []]; split; reflexivity | intros [_ ->]; left; reflexivity].
  - split; [intros [] | intros [H _]; discriminate].
Qed.

Ltac bprop :=
  repeat match goal with
         | H : _ && _ = true |- _ => apply andb_true_iff in H; destruct H
         | H : _ && _ = false |- _ => apply andb_false_iff in H
         | H : (_ =? _) = true |- _ => apply Z.eqb_eq in H
         | H : (_ =? _) = false |- _ => apply Z.eqb_neq in H
         | H : in_range _ _ _ = true |- _ => apply in_range_iff in H
         | H : in_range _ _ _ = false |- _ => apply in_range_false in H
         end.

Ltac case_tests :=
  repeat match goal with
         | |- context [if ?b then _ else _] =>
             let E := fresh "E" in destruct b eqn:E
         end.

Ltac absurd_tests :=
  bprop; exfalso;
  repeat match goal with
         | H : _ \/ _ |- _ => destruct H
         end;
  bprop; subst;
  try match goal with
      | H : is_decimal_char 46 = true |- _ => vm_compute in H; discriminate
      end;
  try congruence; lia.

Ltac test_false :=
  match goal with
  | |- ?b = false =>
      let E := fresh "E" in destruct b eqn:E; [absurd_tests | reflexivity]
  end.

Lemma day_field_int (g : str) (v : Z) : day_field g = Some v -> py_int g = Ok v.
Proof.
  destruct g as [|a [|b [|? ?]]]; simpl; try discriminate.
  - destruct (in_range 49 57 a) eqn:E; [| discriminate]. intros [= <-].
    apply py_int_one. eapply in_range_sub; [| | exact E]; lia.
  - destruct ((a =? 51) && in_range 48 49 b) eqn:E1.
    { intros [= <-]. apply andb_true_iff in E1. destruct E1 as [Ea Eb].
      apply Z.eqb_eq in Ea. subst a.
      rewrite (py_int_two 51 b 3 (b - 48)); [f_equal; lia | reflexivity |].
      apply decimal_value_ascii. eapply in_range_sub; [| | exact Eb]; lia. }
    destruct (in_range 49 50 a && is_decimal_char b) eqn:E2.
    { apply andb_true_iff in E2. destruct E2 as [Ea Eb].
      destruct (decimal_value b) as [w|] eqn:Ew; [| discriminate]. intros [= <-].
      apply py_int_two; [| exact Ew].
      apply decimal_value_ascii. eapply in_range_sub; [| | exact Ea]; lia. }
    destruct ((a =? 48) && in_range 49 57 b) eqn:E3.
    { intros [= <-]. apply andb_true_iff in E3. destruct E3 as [Ea Eb].
      apply Z.eqb_eq in Ea. subst a.
      rewrite (py_int_two 48 b 0 (b - 48)); [f_equal; lia | reflexivity |].
      apply decimal_value_ascii. eapply in_range_sub; [| | exact Eb]; lia. }
    destruct ((a =? 32) && in_range 49 57 b) eqn:E4; [| discriminate].
    intros [= <-]. apply andb_true_iff in E4. destruct E4 as [Ea Eb].
    apply Z.eqb_eq in Ea. subst a.
    apply py_int_space_one. eapply in_range_sub; [| | exact Eb]; lia.
Qed.

Lemma month_field_int (g : str) (v : Z) : month_field g = Some v -> py_int g = Ok v.
Proof.
  destruct g as [|a [|b [|? ?]]]; simpl; try discriminate.
  - destruct (in_range 49 57 a) eqn:E; [| discriminate]. intros [= <-].
    apply py_int_one. eapply in_range_sub; [| | exact E]; lia.
  - destruct ((a =? 49) && in_range 48 50 b) eqn:E1.
    { intros [= <-]. apply andb_true_iff in E1. destruct E1 as [Ea Eb].
      apply Z.eqb_eq in Ea. subst a.
      rewrite (py_int_two 49 b 1 (b - 48)); [f_equal; lia | reflexivity |].
      apply decimal_value_ascii. eapply in_range_sub; [| | exact Eb]; lia. }
    destruct ((a =? 48) && in_range 49 57 b) eqn:E3; [| discriminate].
    intros [= <-]. apply andb_true_iff in E3. destruct E3 as [Ea Eb].
    apply Z.eqb_eq in Ea. subst a.
    rewrite (py_int_two 48 b 0 (b - 48)); [f_equal; lia | reflexivity |].
    apply decimal_value_ascii. eapply in_range_sub; [| | exact Eb]; lia.
Qed.

Lemma year_field_int (g : str) (v : Z) : year_field g = Some v -> py_int g = Ok v.
Proof.
  destruct g as [|a [|b [|c [|d [|? ?]]]]]; simpl; try discriminate.
  destruct (decimal_value a) as [va|] eqn:Ea; [| discriminate].
  destruct (decimal_value b) as [vb|] eqn:Eb; [| discriminate].
  destruct (decimal_value c) as [vc|] eqn:Ec; [| discriminate].
  destruct (decimal_value d) as [vd|] eqn:Ed; [| discriminate].
  intros [= <-]. apply py_int_four; assumption.
Qed.

Lemma day_field_no_dot (g : str) (v : Z) : day_field g = Some v -> ~ In 46 g.
Proof.
  destruct g as [|a [|b [|? ?]]]; simpl; try discriminate.
  - case_tests; [| discriminate]. intros _ [-> | []]. absurd_tests.
  - destruct ((a =? 51) && in_range 48 49 b) eqn:E1;
      [intros _ [-> | [-> | []]]; absurd_tests |].
    destruct (in_range 49 50 a && is_decimal_char b) eqn:E2;
      [intros _ [-> | [-> | []]]; absurd_tests |].
    destruct ((a =? 48) && in_range 49 57 b) eqn:E3;
      [intros _ [-> | [-> | []]]; absurd_tests |].
    destruct ((a =? 32) && in_range 49 57 b) eqn:E4;
      [intros _ [-> | [-> | []]]; absurd_tests | discriminate].
Qed.

Lemma month_field_no_dot (g : str) (v : Z) : month_field g = Some v -> ~ In 46 g.
Proof.
  destruct g as [|a [|b [|? ?]]]; simpl; try discriminate.
  - case_tests; [| discriminate]. intros _ [-> | []]. absurd_tests.
  - destruct ((a =? 49) && in_range 48 50 b) eqn:E1;
      [intros _ [-> | [-> | []]]; absurd_tests |].
    destruct ((a =? 48) && in_range 49 57 b) eqn:E3;
      [intros _ [-> | [-> | []]]; absurd_tests | discriminate].
Qed.

Lemma year_field_length (g : str) (v : Z) : year_field g = Some v -> length g = 4%nat.
Proof.
  destruct g as [|a [|b [|c [|d [|? ?]]]]]; simpl; try discriminate. reflexivity.
Qed.

Lemma re_d_sound (s g r : str) :
  In (g, r) (re_d s) -> s = g ++ r /\ exists v, day_field g = Some v.
Proof.
  destruct s as [|a [|b s']]; simpl; [intros [] | |].
  - rewrite in_alt. intros [E [= -> ->]]. split; [reflexivity |].
    simpl. rewrite E. eexists. reflexivity.
  - rewrite !in_app_iff, !in_alt.
    intros [[E [= -> ->]] | [[E [= -> ->]] | [[E [= -> ->]] | [[E [= -> ->]] | [E [= -> ->]]]]]];
      (split; [reflexivity |]); simpl.
    + rewrite E. eexists. reflexivity.
    + rewrite E.
      assert ((a =? 51) && in_range 48 49 b = false) as -> by test_false.
      apply andb_true_iff in E. destruct E as [_ E].
      apply decimal_value_some in E. destruct E as [w ->]. eexists. reflexivity.
    + rewrite E.
      assert ((a =? 51) && in_range 48 49 b = false) as -> by test_false.
      assert (in_range 49 50 a && is_decimal_char b = false) as -> by test_false.
      eexists. reflexivity.
    + rewrite E. eexists. reflexivity.
    + rewrite E.
      assert ((a =? 51) && in_range 48 49 b = false) as -> by test_false.
      assert (in_range 49 50 a && is_decimal_char b = false) as -> by test_false.
      assert ((a =? 48) && in_range 49 57 b = false) as -> by test_false.
      eexists. reflexivity.
Qed.

Lemma re_d_complete (g r : str) (v : Z) :
  day_field g = Some v -> In (g, r) (re_d (g ++ r)).
Proof.
  destruct g as [|a [|b [|? ?]]]; simpl day_field; try discriminate.
  - destruct (in_range 49 57 a) eqn:E; [| discriminate]. intros _.
    destruct r as [|b r]; simpl.
    + apply in_alt. split; [exact E | reflexivity].
    + rewrite !in_app_iff, !in_alt. right. right. right. left.
      split; [exact E | reflexivity].
  - intros H. simpl. rewrite !in_app_iff, !in_alt.
    destruct ((a =? 51) && in_range 48 49 b) eqn:E1; [left; split; reflexivity |].
    destruct (in_range 49 50 a && is_decimal_char b) eqn:E2;
      [right; left; split; reflexivity |].
    destruct ((a =? 48) && in_range 49 57 b) eqn:E3;
      [right; right; left; split; reflexivity |].
    destruct ((a =? 32) && in_range 49 57 b) eqn:E4; [| discriminate].
    right. right. right. right. split; reflexivity.
Qed.

Lemma re_m_sound (s g r : str) :
  In (g, r) (re_m s) -> s = g ++ r /\ exists v, month_field g = Some v.
Proof.
  destruct s as [|a [|b s']]; simpl; [intros [] | |].
  - rewrite in_alt. intros [E [= -> ->]]. split; [reflexivity |].
    simpl. rewrite E. eexists. reflexivity.
  - rewrite !in_app_iff, !in_alt.
    intros [[E [= -> ->]] | [[E [= -> ->]] | [E [= -> ->]]]];
      (split; [reflexivity |]); simpl.
    + rewrite E. eexists. reflexivity.
    + rewrite E.
      assert ((a =? 49) && in_range 48 50 b = false) as -> by test_false.
      eexists. reflexivity.
    + rewrite E. eexists. reflexivity.
Qed.

Lemma re_m_complete (g r : str) (v : Z) :
  month_field g = Some v -> In (g, r) (re_m (g ++ r)).
Proof.
  destruct g as [|a [|b [|? ?]]]; simpl month_field; try discriminate.
  - destruct (in_range 49 57 a) eqn:E; [| discriminate]. intros _.
    destruct r as [|b r]; simpl.
    + apply in_alt. split; [exact E | reflexivity].
    + rewrite !in_app_iff, !in_alt. right. right. split; [exact E | reflexivity].
  - intros H. simpl. rewrite !in_app_iff, !in_alt.
    destruct ((a =? 49) && in_range 48 50 b) eqn:E1; [left; split; reflexivity |].
    destruct ((a =? 48) && in_range 49 57 b) eqn:E3; [| discriminate].
    right. left. split; reflexivity.
Qed.

Lemma re_Y_sound (s g r : str) :
  In (g, r) (re_Y s) -> s = g ++ r /\ exists v, year_field g = Some v.
Proof.
  destruct s as [|a [|b [|c [|d s']]]]; simpl; try (intros []).
  rewrite in_alt. intros [E [= -> ->]]. split; [reflexivity |].
  rewrite !andb_true_iff in E. destruct E as [[[Ha Hb] Hc] Hd].
  apply decimal_value_some in Ha, Hb, Hc, Hd.
  destruct Ha as [va Ha], Hb as [vb Hb], Hc as [vc Hc], Hd as [vd Hd].
  simpl. rewrite Ha, Hb, Hc, Hd. eexists. reflexivity.
Qed.

Lemma re_Y_complete (g r : str) (v : Z) :
  year_field g = Some v -> In (g, r) (re_Y (g ++ r)).
Proof.
  destruct g as [|a [|b [|c [|d [|? ?]]]]]; simpl year_field; try discriminate.
  intros H. simpl. apply in_alt. split; [| reflexivity].
  destruct (decimal_value a) eqn:Ea; [| discriminate].
  destruct (decimal_value b) eqn:Eb; [| discriminate].
  destruct (decimal_value c) eqn:Ec; [| discriminate].
  destruct (decimal_value d) eqn:Ed; [| discriminate].
  rewrite !andb_true_iff.
  repeat split; apply decimal_value_some; eexists; eassumption.
Qed.

Lemma re_lit_in (c : Z) (s r : str) : In r (re_lit c s) <-> s = c :: r.
Proof.
  destruct s as [|a s]; simpl; [split; [intros [] | discriminate] |].
  rewrite in_alt, Z.eqb_eq. split.
  - intros [-> ->]. reflexivity.
  - intros [= -> ->]. split; reflexivity.
Qed.

(** The matches of the pattern are the ways to read [s] as a day field, a
    full stop, a month field, a full stop, a year field and a rest. *)
Lemma format_regex_matches_in (s d m y r : str) :
  In (d, m, y, r) (format_regex_matches s)
  <-> s = d ++ [46] ++ m ++ [46] ++ y ++ r
      /\ (exists v, day_field d = Some v)
      /\ (exists v, month_field m = Some v)
      /\ (exists v, year_field y = Some v).
Proof.
  unfold format_regex_matches. split.
  - rewrite in_flat_map. intros [[d' r1] [Hd H]]. simpl in H.
    rewrite in_flat_map in H. destruct H as [r2 [H2 H]].
    rewrite in_flat_map in H. destruct H as [[m' r3] [Hm H]]. simpl in H.
    rewrite in_flat_map in H. destruct H as [r4 [H4 H]].
    rewrite in_map_iff in H. destruct H as [[y' r5] [E Hy]]. simpl in E.
    injection E as <- <- <- <-.
    apply re_d_sound in Hd. destruct Hd as [-> Hd].
    apply re_lit_in in H2. subst r1.
    apply re_m_sound in Hm. destruct Hm as [-> Hm].
    apply re_lit_in in H4. subst r3.
    apply re_Y_sound in Hy. destruct Hy as [-> Hy].
    split; [reflexivity | split; [exact Hd | split; [exact Hm | exact Hy]]].
  - intros [-> [[vd Hd] [[vm Hm] [vy Hy]]]].
    rewrite in_flat_map. exists (d, [46] ++ m ++ [46] ++ y ++ r).
    split; [eapply re_d_complete, Hd |]. simpl fst. simpl snd.
    rewrite in_flat_map. exists (m ++ [46] ++ y ++ r).
    split; [apply re_lit_in; reflexivity |].
    rewrite in_flat_map. exists (m, [46] ++ y ++ r).
    split; [eapply re_m_complete, Hm |]. simpl fst. simpl snd.
    rewrite in_flat_map. exists (y ++ r).
    split; [apply re_lit_in; reflexivity |].
    rewrite in_map_iff. exists (y, r).
    split; [reflexivity | eapply re_Y_complete, Hy].
Qed.

Lemma split_at_dot (d d' t t' : str) :
  ~ In 46 d -> ~ In 46 d' -> d ++ 46 :: t = d' ++ 46 :: t' -> d = d' /\ t = t'.
Proof.
  revert d'. induction d as [|x d IH]; intros [|x' d'] H H' E; simpl in *.
  - injection E as <-. split; reflexivity.
  - injection E as <- _. exfalso. apply H'. left. reflexivity.
  - injection E as -> _. exfalso. apply H. left. reflexivity.
  - injection E as <- E.
    destruct (IH d' ltac:(tauto) ltac:(tauto) E) as [-> ->]. split; reflexivity.
Qed.

Lemma split_at_length (y y' r r' : str) :
  length y = length y' -> y ++ r = y' ++ r' -> y = y' /\ r = r'.
Proof.
  revert y'. induction y as [|x y IH]; intros [|x' y'] Hl E; simpl in *;
    try discriminate.
  - split; [reflexivity | exact E].
  - injection E as <- E. injection Hl as Hl.
    destruct (IH y' Hl E) as [-> ->]. split; reflexivity.
Qed.

(** The pattern reads a string in at most one way. *)
Lemma format_regex_matches_unique (s : str) (x x' : str * str * str * str) :
  In x (format_regex_matches s) -> In x' (format_regex_matches s) -> x = x'.
Proof.
  destruct x as [[[d m] y] r], x' as [[[d' m'] y'] r'].
  rewrite !format_regex_matches_in.
  intros [E [[vd Hd] [[vm Hm] [vy Hy]]]] [E' [[vd' Hd'] [[vm' Hm'] [vy' Hy']]]].
  rewrite E in E'. simpl in E'.
  apply split_at_dot in E';
    [| eapply day_field_no_dot; eassumption | eapply day_field_no_dot; eassumption].
  destruct E' as [<- E'].
  apply split_at_dot in E';
    [| eapply month_field_no_dot; eassumption | eapply month_field_no_dot; eassumption].
  destruct E' as [<- E'].
  apply split_at_length in E';
    [| rewrite (year_field_length _ _ Hy), (year_field_length _ _ Hy'); reflexivity].
  destruct E' as [<- <-]. reflexivity.
Qed.

Lemma format_regex_match_some (s : str) (x : str * str * str * str) :
  format_regex_match s = Some x <-> In x (format_regex_matches s).
Proof.
  unfold format_regex_match. split.
  - destruct (format_regex_matches s) as [|x0 l]; simpl; [discriminate |].
    intros [= <-]. left. reflexivity.
  - intros H. destruct (format_regex_matches s) as [|x0 l] eqn:E; [destruct H |].
    simpl. f_equal. apply (format_regex_matches_unique s).
    + rewrite E. left. reflexivity.
    + rewrite E. exact H.
Qed.

(* ================================================================== *)
(** * [strptime] and [Birthday] *)
(* ================================================================== *)

Lemma strptime_ok (s : str) (dt : date) :
  strptime_dmY s = Ok dt <-> birthday_text s dt.
Proof.
  unfold strptime_dmY, birthday_text. split.
  - destruct (format_regex_match s) as [[[[d m] y] r]|] eqn:E; [| discriminate].
    apply format_regex_match_some, format_regex_matches_in in E.
    destruct E as [E [[vd Hd] [[vm Hm] [vy Hy]]]].
    destruct r as [|c r]; simpl truthy; cbv iota; [| discriminate].
    rewrite (day_field_int _ _ Hd), (month_field_int _ _ Hm), (year_field_int _ _ Hy).
    cbn [rbind]. intros H. apply check_date_fields_ok in H. destruct H as [-> Hv].
    exists d, m, y. rewrite app_nil_r in E.
    split; [exact E | split; [exact Hd | split; [exact Hm | split; [exact Hy | exact Hv]]]].
  - intros [td [tm [ty [E [Hd [Hm [Hy Hv]]]]]]].
    assert (format_regex_match s = Some (td, tm, ty, [])) as ->.
    { apply format_regex_match_some, format_regex_matches_in.
      rewrite app_nil_r. split; [exact E |]. split; [| split]; eexists; eassumption. }
    simpl truthy. cbv iota.
    rewrite (day_field_int _ _ Hd), (month_field_int _ _ Hm), (year_field_int _ _ Hy).
    cbn [rbind]. apply check_date_fields_ok. split; [| exact Hv].
    destruct dt; reflexivity.
Qed.

Lemma py_int_raises_ValueError (s : str) (e : exn) :
  py_int s = Raise e -> exists msg, e = ValueError msg.
Proof.
  unfold py_int. destruct (strip s); [intros [= <-]; eexists; reflexivity |].
  destruct (int_digits _ _); [discriminate | intros [= <-]; eexists; reflexivity].
Qed.

Lemma strptime_raises_ValueError (s : str) (e : exn) :
  strptime_dmY s = Raise e -> exists msg, e = ValueError msg.
Proof.
  unfold strptime_dmY.
  destruct (format_regex_match s) as [[[[d m] y] r]|];
    [| intros [= <-]; eexists; reflexivity].
  destruct (truthy r); [intros [= <-]; eexists; reflexivity |].
  destruct (py_int d) as [vd|e1] eqn:Ed; cbn [rbind];
    [| intros [= <-]; eapply py_int_raises_ValueError, Ed].
  destruct (py_int m) as [vm|e2] eqn:Em; cbn [rbind];
    [| intros [= <-]; eapply py_int_raises_ValueError, Em].
  destruct (py_int y) as [vy|e3] eqn:Ey; cbn [rbind];
    [| intros [= <-]; eapply py_int_raises_ValueError, Ey].
  apply check_date_fields_raises_ValueError.
Qed.

Lemma Birthday_init_cases (s : str) :
  (exists dt, birthday_text s dt
              /\ Birthday_init s = Ok {| birthday_value := s; birthday_date := dt |})
  \/ ((~ exists dt, birthday_text s dt)
      /\ Birthday_init s = Raise (ValueError MsgDateFormat)).
Proof.
  unfold Birthday_init. destruct (strptime_dmY s) as [dt|e] eqn:E.
  - left. exists dt. split; [apply strptime_ok, E | reflexivity].
  - right. split.
    + intros [dt H]. apply strptime_ok in H. congruence.
    + destruct (strptime_raises_ValueError s e E) as [msg ->]. reflexivity.
Qed.

Lemma birthday_text_unique (s : str) (dt dt' : date) :
  birthday_text s dt -> birthday_text s dt' -> dt = dt'.
Proof. intros H H'. apply strptime_ok in H, H'. congruence. Qed.

Lemma written_is_birthday_text (s : str) (dt : date) :
  written_DD_MM_YYYY s dt -> valid_date dt = true -> birthday_text s dt.
Proof.
  intros [d1 [d2 [m1 [m2 [y1 [y2 [y3 [y4 [-> [Hdig [Hd [Hm Hy]]]]]]]]]]]] Hv.
  cbn [forallb] in Hdig. rewrite !andb_true_iff in Hdig.
  destruct Hdig as [A1 [A2 [A3 [A4 [A5 [A6 [A7 [A8 _]]]]]]]].
  unfold is_ascii_digit in *.
  apply valid_date_iff in Hv. destruct Hv as [Hvy [Hvm Hvd]].
  pose proof (days_in_month_le_31 (year dt) (month dt) Hvm) as H31.
  exists [d1; d2], [m1; m2], [y1; y2; y3; y4].
  split; [reflexivity |].
  assert (valid_date dt = true) as Hv by (apply valid_date_iff; tauto).
  pose proof A1 as B1. pose proof A2 as B2. pose proof A3 as B3. pose proof A4 as B4.
  apply in_range_iff in B1, B2, B3, B4.
  split; [| split; [| split; [| exact Hv]]].
  - simpl.
    destruct ((d1 =? 51) && in_range 48 49 d2) eqn:E1;
      [bprop; f_equal; lia |].
    destruct (in_range 49 50 d1 && is_decimal_char d2) eqn:E2.
    { rewrite (decimal_value_ascii d2 A2). f_equal. lia. }
    rewrite (ascii_digit_is_decimal d2 A2) in E2.
    destruct ((d1 =? 48) && in_range 49 57 d2) eqn:E3; [bprop; f_equal; lia |].
    absurd_tests.
  - simpl.
    destruct ((m1 =? 49) && in_range 48 50 m2) eqn:E1; [bprop; f_equal; lia |].
    destruct ((m1 =? 48) && in_range 49 57 m2) eqn:E3; [bprop; f_equal; lia |].
    absurd_tests.
  - simpl.
    rewrite (decimal_value_ascii y1 A5), (decimal_value_ascii y2 A6),
      (decimal_value_ascii y3 A7), (decimal_value_ascii y4 A8).
    f_equal. lia.
Qed.

(** C6, as amended: constructing a birthday from [s] succeeds exactly when
    [s] reads day.month.year with a day field of one or two digits (or a
    space and a digit), a month field of one or two digits and a year field
    of exactly four decimal digits, the three numbers forming a calendar
    date of the years 1 to 9999; the value stored is [s] and the date is the
    one read.  In particular every real date written DD.MM.YYYY is accepted.
    Every other string fails with the validation error. *)
Theorem Birthday_init_accepts_day_month_year (s : str) :
  ((exists b, Birthday_init s = Ok b) <-> (exists dt, birthday_text s dt))
  /\ (forall b, Birthday_init s = Ok b ->
        birthday_value b = s /\ birthday_text s (birthday_date b))
  /\ ((~ exists b, Birthday_init s = Ok b)
      <-> Birthday_init s = Raise (ValueError MsgDateFormat))
  /\ (forall dt, written_DD_MM_YYYY s dt -> valid_date dt = true ->
        Birthday_init s = Ok {| birthday_value := s; birthday_date := dt |}).
Proof.
  destruct (Birthday_init_cases s) as [[dt [Ht E]] | [Hn E]]; rewrite E.
  - split; [| split; [| split]].
    + split; intros _; [exists dt; exact Ht | eexists; reflexivity].
    + intros b [= <-]. split; [reflexivity | exact Ht].
    + split; [| discriminate].
      intros H. exfalso. apply H. eexists. reflexivity.
    + intros dt' Hw Hv. f_equal. f_equal.
      apply (birthday_text_unique s); [exact Ht |].
      apply written_is_birthday_text; assumption.
  - split; [| split; [| split]].
    + split; [intros [b Hb]; discriminate | intros H; exfalso; exact (Hn H)].
    + intros b Hb. discriminate.
    + split; [reflexivity | intros _ [b Hb]; discriminate].
    + intros dt Hw Hv. exfalso. apply Hn. exists dt.
      apply written_is_birthday_text; assumption.
Qed.

(** C6, as stated, fails: "1.1.2000", with a one-digit day and a one-digit
    month, is accepted as 1 January 2000 although it is not of the form
    DD.MM.YYYY. *)
Lemma Birthday_init_accepts_one_digit_fields :
  Birthday_init s_1_1_2000
  = Ok {| birthday_value := s_1_1_2000;
          birthday_date := {| year := 2000; month := 1; day := 1 |} |}
  /\ length s_1_1_2000 = 8%nat
  /\ (forall dt, ~ written_DD_MM_YYYY s_1_1_2000 dt).
Proof.
  split; [vm_compute; reflexivity | split; [reflexivity |]].
  intros dt [d1 [d2 [m1 [m2 [y1 [y2 [y3 [y4 [E _]]]]]]]]].
  apply (f_equal (@length Z)) in E. discriminate E.
Qed.

(** The dates the specification names as malformed are rejected. *)
Example Birthday_init_rejects_impossible_dates :
  Birthday_init s_32_13_2000 = Raise (ValueError MsgDateFormat)
  /\ Birthday_init s_29_02_2001 = Raise (ValueError MsgDateFormat).
Proof. vm_compute. split; reflexivity. Qed.

(* ================================================================== *)
(** * More on [Name] and the [Record] methods *)
(* ================================================================== *)

Lemma lstrip_nil_iff (s : str) : lstrip s = [] <-> forallb is_space_char s = true.
Proof.
  induction s as [|c s IH]; simpl; [tauto |].
  destruct (is_space_char c); simpl; [exact IH |].
  split; discriminate.
Qed.

Lemma strip_nil_iff (s : str) : strip s = [] <-> forallb is_space_char s = true.
Proof.
  rewrite <- lstrip_nil_iff. unfold strip, rstrip. split.
  - intros H. apply (f_equal (@rev Z)) in H. rewrite rev_involutive in H.
    simpl in H. apply lstrip_nil_iff in H.
    rewrite forallb_forall in H.
    destruct (lstrip s) as [|c t] eqn:E; [reflexivity | exfalso].
    pose proof (lstrip_no_lead s) as Hl. rewrite E in Hl. simpl in Hl.
    rewrite (H c) in Hl; [discriminate |].
    apply in_rev. rewrite rev_involutive. left. reflexivity.
  - intros ->. reflexivity.
Qed.

Lemma no_outer_whitespace (s : str) :
  no_lead s -> no_lead (rev s) -> outer_whitespace s = false.
Proof.
  destruct s as [|c r]; [reflexivity |]. intros H1 H2.
  destruct (rev_head_last c r) as [t Et]. rewrite Et in H2. simpl in *.
  rewrite H1, H2. reflexivity.
Qed.

(** X1 ([Name.__init__]): a name is rejected exactly when the raw string
    consists of whitespace only (the empty string included); an accepted
    name is stored trimmed, is not empty, has no whitespace at either end,
    and validates to itself again. *)
Theorem Name_init_trims (raw : str) :
  match Name_init raw with
  | Ok n =>
      forallb is_space_char raw = false
      /\ name_value n = strip raw
      /\ name_value n <> []
      /\ outer_whitespace (name_value n) = false
      /\ Name_init (name_value n) = Ok n
  | Raise e => e = ValueError MsgEmptyName /\ forallb is_space_char raw = true
  end.
Proof.
  destruct (forallb is_space_char raw) eqn:F.
  - apply strip_nil_iff in F.
    assert (Name_init raw = Raise (ValueError MsgEmptyName)) as ->.
    { unfold Name_init. rewrite F. simpl. rewrite orb_true_r. reflexivity. }
    split; reflexivity.
  - assert (strip raw <> []) as Hne.
    { intros H. apply strip_nil_iff in H. congruence. }
    rewrite (Name_init_ok raw Hne). cbn [name_value].
    split; [reflexivity |]. split; [reflexivity |]. split; [exact Hne |].
    split.
    + apply no_outer_whitespace; [apply strip_no_lead | apply strip_no_trail].
    + rewrite Name_init_ok; rewrite strip_idempotent; [reflexivity | exact Hne].
Qed.

Lemma find_phone_in_first (ps : list Phone) (number : str) :
  match find_phone_in ps number with
  | Some p =>
      exists before after,
        ps = before ++ p :: after
        /\ phone_value p = number
        /\ ~ In number (map phone_value before)
  | None => ~ In number (map phone_value ps)
  end.
Proof.
  induction ps as [|q ps IH]; simpl; [tauto |].
  destruct (str_eqb (phone_value q) number) eqn:E.
  - apply str_eqb_eq in E. exists [], ps. simpl. tauto.
  - apply str_eqb_neq in E.
    destruct (find_phone_in ps number) as [p|].
    + destruct IH as [before [after [-> [Hp Hb]]]].
      exists (q :: before), after. simpl. split; [reflexivity | split; [exact Hp |]].
      intros [H | H]; [exact (E H) | exact (Hb H)].
    + intros [H | H]; [exact (E H) | exact (IH H)].
Qed.

Lemma find_phone_in_split (before after : list Phone) (p : Phone) :
  ~ In (phone_value p) (map phone_value before) ->
  find_phone_in (before ++ p :: after) (phone_value p) = Some p.
Proof.
  induction before as [|q before IH]; simpl; intros H.
  - rewrite str_eqb_refl. reflexivity.
  - destruct (str_eqb (phone_value q) (phone_value p)) eqn:E.
    + apply str_eqb_eq in E. exfalso. apply H. left. exact E.
    + apply IH. tauto.
Qed.

(** X2 ([Record.find_phone]): the phone returned is the first one of the
    sequence that carries the number asked for; nothing is returned exactly
    when no phone carries it. *)
Theorem find_phone_returns_first_match (self : record) (number : str) :
  match find_phone self number with
  | Some p =>
      exists before after,
        phones self = before ++ p :: after
        /\ phone_value p = number
        /\ ~ In number (map phone_value before)
  | None => ~ In number (map phone_value (phones self))
  end.
Proof. apply find_phone_in_first. Qed.

Lemma Phone_init_valid (p : str) :
  is_ok (Phone_init p) = true -> Phone_init p = Ok {| phone_value := p |}.
Proof.
  destruct (Phone_init_cases p) as [[E _] | [E _]]; rewrite E; simpl;
    [reflexivity | discriminate].
Qed.

(** X3 ([Record.add_phone]): a well-formed number is appended after the
    phones already there, even if the record already holds it; name and
    birthday stay, and [find_phone] then finds the number. *)
Theorem add_phone_appends_and_is_found (self : record) (p : str) :
  is_ok (Phone_init p) = true ->
  add_phone p self = (Ok tt, with_phone self p)
  /\ phones (with_phone self p) = phones self ++ [ {| phone_value := p |} ]
  /\ name (with_phone self p) = name self
  /\ birthday (with_phone self p) = birthday self
  /\ exists q, find_phone (with_phone self p) p = Some q /\ phone_value q = p.
Proof.
  intros Hv. unfold add_phone. rewrite (Phone_init_valid p Hv).
  split; [reflexivity |]. split; [reflexivity |]. split; [reflexivity |].
  split; [reflexivity |].
  pose proof (find_phone_in_first (phones (with_phone self p)) p) as H.
  unfold find_phone. destruct (find_phone_in _ p) as [q|].
  - destruct H as [_ [_ [_ [Hq _]]]]. exists q. split; [reflexivity | exact Hq].
  - exfalso. apply H. simpl. rewrite map_app, in_app_iff. right. left. reflexivity.
Qed.

Lemma add_phone_appends_and_is_found_witness :
  add_phone s_0987654321 john_two_phones
    = (Ok tt, with_phone john_two_phones s_0987654321)
  /\ phones (with_phone john_two_phones s_0987654321)
     = phones john_two_phones ++ [ {| phone_value := s_0987654321 |} ]
  /\ name (with_phone john_two_phones s_0987654321) = name john_two_phones
  /\ birthday (with_phone john_two_phones s_0987654321) = birthday john_two_phones
  /\ exists q, find_phone (with_phone john_two_phones s_0987654321) s_0987654321
               = Some q /\ phone_value q = s_0987654321.
Proof.
  apply (add_phone_appends_and_is_found john_two_phones s_0987654321).
  reflexivity.
Defined.

Lemma list_remove_split (before after : list Phone) (p : Phone) :
  ~ In (phone_value p) (map phone_value before) ->
  list_remove p (before ++ p :: after) = before ++ after.
Proof.
  induction before as [|q before IH]; simpl; intros H.
  - rewrite str_eqb_refl. reflexivity.
  - destruct (str_eqb (phone_value q) (phone_value p)) eqn:E.
    + apply str_eqb_eq in E. exfalso. apply H. left. exact E.
    + f_equal. apply IH. tauto.
Qed.

(** X4 ([Record.remove_phone]): when the record holds the number, exactly
    its first occurrence is removed; the phones before and after it keep
    their order, and a later duplicate stays. *)
Theorem remove_phone_removes_first_occurrence
    (self : record) (before after : list Phone) (p : Phone) :
  phones self = before ++ p :: after ->
  ~ In (phone_value p) (map phone_value before) ->
  remove_phone (phone_value p) self = (Ok tt, set_phones self (before ++ after)).
Proof.
  intros Hs Hb. unfold remove_phone, find_phone. rewrite Hs.
  rewrite (find_phone_in_split before after p Hb).
  rewrite (list_remove_split before after p Hb). reflexivity.
Qed.

Lemma remove_phone_removes_first_occurrence_witness :
  remove_phone s_1234567890 john_two_phones
  = (Ok tt, set_phones john_two_phones [ {| phone_value := s_5555555555 |} ]).
Proof.
  apply (remove_phone_removes_first_occurrence john_two_phones
           [] [ {| phone_value := s_5555555555 |} ] {| phone_value := s_1234567890 |}).
  - reflexivity.
  - simpl. tauto.
Defined.

Lemma set_phones_same (self : record) : set_phones self (phones self) = self.
Proof. destruct self; reflexivity. Qed.

(** X5 ([Record.add_phone], [Record.remove_phone]): adding a well-formed
    number the record does not hold and removing it again gives back the
    record as it was. *)
Theorem add_then_remove_phone_restores (self : record) (p : str) :
  is_ok (Phone_init p) = true ->
  ~ In p (map phone_value (phones self)) ->
  remove_phone p (snd (add_phone p self)) = (Ok tt, self).
Proof.
  intros Hv Hn. unfold add_phone. rewrite (Phone_init_valid p Hv). cbn [snd].
  unfold remove_phone, find_phone, with_phone. cbn [phones set_phones].
  pose proof (find_phone_in_split (phones self) [] {| phone_value := p |} Hn) as Hf.
  pose proof (list_remove_split (phones self) [] {| phone_value := p |} Hn) as Hd.
  cbn [phone_value] in Hf, Hd. rewrite Hf, Hd, app_nil_r.
  destruct self; reflexivity.
Qed.

Lemma add_then_remove_phone_restores_witness :
  remove_phone s_0987654321 (snd (add_phone s_0987654321 john_two_phones))
  = (Ok tt, john_two_phones).
Proof.
  apply (add_then_remove_phone_restores john_two_phones s_0987654321).
  - reflexivity.
  - simpl. intros [H | [H | []]]; discriminate.
Defined.

Lemma edit_phone_loop_split (self : record) (old new : str)
    (pre before after : list Phone) (p : Phone) :
  phones self = pre ++ before ++ p :: after ->
  phone_value p = old ->
  ~ In old (map phone_value before) ->
  is_ok (Phone_init new) = true ->
  edit_phone_loop (length pre) (before ++ p :: after) old new self
  = (Ok tt, set_phones self (pre ++ before ++ {| phone_value := new |} :: after)).
Proof.
  intros Hs Hp Hb Hv. revert pre Hs.
  induction before as [|q before IH]; intros pre Hs; simpl.
  - rewrite Hp, str_eqb_refl, (Phone_init_valid new Hv). f_equal. f_equal.
    rewrite Hs. simpl.
    replace (length pre) with (length pre + 0)%nat by lia.
    rewrite insert_app_r. reflexivity.
  - destruct (str_eqb (phone_value q) old) eqn:E.
    + apply str_eqb_eq in E. exfalso. apply Hb. left. exact E.
    + specialize (IH ltac:(simpl in Hb; tauto) (pre ++ [q])).
      rewrite length_app in IH. simpl in IH.
      replace (length pre + 1)%nat with (S (length pre)) in IH by lia.
      rewrite IH; rewrite <- ?app_assoc; [reflexivity | exact Hs].
Qed.

(** X6 ([Record.edit_phone]): when the record holds the old number and the
    new one is well formed, the first phone carrying the old number is
    replaced in place; every other phone keeps its position. *)
Theorem edit_phone_replaces_first_in_place
    (self : record) (old new : str) (before after : list Phone) (p : Phone) :
  phones self = before ++ p :: after ->
  phone_value p = old ->
  ~ In old (map phone_value before) ->
  is_ok (Phone_init new) = true ->
  edit_phone old new self
  = (Ok tt, set_phones self (before ++ {| phone_value := new |} :: after)).
Proof.
  intros Hs Hp Hb Hv. unfold edit_phone. rewrite Hs.
  apply (edit_phone_loop_split self old new [] before after p Hs Hp Hb Hv).
Qed.

Lemma edit_phone_replaces_first_in_place_witness :
  edit_phone s_1234567890 s_0987654321 john_two_phones
  = (Ok tt, set_phones john_two_phones
              [ {| phone_value := s_0987654321 |}; {| phone_value := s_5555555555 |} ]).
Proof.
  apply (edit_phone_replaces_first_in_place john_two_phones s_1234567890 s_0987654321
           [] [ {| phone_value := s_5555555555 |} ] {| phone_value := s_1234567890 |}).
  - reflexivity.
  - reflexivity.
  - simpl. tauto.
  - reflexivity.
Defined.

Lemma edit_phone_loop_absent (self : record) (old new : str) (ps : list Phone) (i : nat) :
  ~ In old (map phone_value ps) ->
  edit_phone_loop i ps old new self = (Raise (ValueError MsgEditNotFound), self).
Proof.
  revert i. induction ps as [|q ps IH]; intros i H; simpl; [reflexivity |].
  destruct (str_eqb (phone_value q) old) eqn:E.
  - apply str_eqb_eq in E. exfalso. apply H. left. exact E.
  - apply IH. simpl in H. tauto.
Qed.

(** X7 ([Record.edit_phone]): when the record does not hold the old
    number, the call raises the not-found error and changes nothing,
    whether or not the new number is well formed: the new number is not
    even looked at. *)
Theorem edit_phone_absent_old_not_found (self : record) (old new : str) :
  ~ In old (map phone_value (phones self)) ->
  edit_phone old new self = (Raise (ValueError MsgEditNotFound), self).
Proof. intros H. apply edit_phone_loop_absent, H. Qed.

Lemma edit_phone_absent_old_not_found_witness :
  edit_phone s_0987654321 s_123 john_two_phones
  = (Raise (ValueError MsgEditNotFound), john_two_phones).
Proof.
  apply (edit_phone_absent_old_not_found john_two_phones s_0987654321 s_123).
  simpl. intros [H | [H | []]]; discriminate.
Defined.

Lemma edit_phone_loop_raise_unchanged (self : record) (old new : str) (e : exn)
    (ps : list Phone) (i : nat) :
  fst (edit_phone_loop i ps old new self) = Raise e ->
  snd (edit_phone_loop i ps old new self) = self.
Proof.
  revert i. induction ps as [|q ps IH]; intros i; simpl; [reflexivity |].
  destruct (str_eqb (phone_value q) old); [| apply IH].
  destruct (Phone_init new); simpl; [discriminate | reflexivity].
Qed.

Lemma edit_phone_raise_unchanged (self : record) (old new : str) (e : exn) :
  fst (edit_phone old new self) = Raise e -> snd (edit_phone old new self) = self.
Proof. apply edit_phone_loop_raise_unchanged. Qed.

Lemma add_birthday_raise_unchanged (self : record) (bd : str) (e : exn) :
  fst (add_birthday bd self) = Raise e -> snd (add_birthday bd self) = self.
Proof.
  unfold add_birthday. destruct (Birthday_init bd); simpl; [discriminate | reflexivity].
Qed.

(** X8 ([Record.add_birthday]): a well-formed date becomes the birthday
    whatever was there before, so setting a birthday twice leaves the second
    one; a malformed date raises and keeps the birthday already set. *)
Theorem add_birthday_overwrites (self : record) (first second : str) (dt : date) :
  birthday_text second dt ->
  snd (add_birthday second (snd (add_birthday first self)))
  = set_birthday self (Some {| birthday_value := second; birthday_date := dt |})
  /\ (is_ok (Birthday_init first) = false ->
      add_birthday first (set_birthday self
                            (Some {| birthday_value := second; birthday_date := dt |}))
      = (Raise (ValueError MsgDateFormat),
         set_birthday self (Some {| birthday_value := second; birthday_date := dt |}))).
Proof.
  intros Ht.
  assert (Birthday_init second
          = Ok {| birthday_value := second; birthday_date := dt |}) as E2.
  { destruct (Birthday_init_cases second) as [[dt' [Ht' E]] | [Hn _]].
    - rewrite E. rewrite (birthday_text_unique second dt dt' Ht Ht'). reflexivity.
    - exfalso. apply Hn. exists dt. exact Ht. }
  split.
  - unfold add_birthday at 2. destruct (Birthday_init first); simpl;
      unfold add_birthday; rewrite E2; reflexivity.
  - intros Hbad. unfold add_birthday.
    destruct (Birthday_init_cases first) as [[dt' [_ E]] | [_ E]]; rewrite E in *;
      [discriminate | reflexivity].
Qed.

Lemma add_birthday_overwrites_witness :
  snd (add_birthday s_01_11_1990 (snd (add_birthday s_32_13_2000 john_two_phones)))
  = set_birthday john_two_phones
      (Some {| birthday_value := s_01_11_1990;
               birthday_date := {| year := 1990; month := 11; day := 1 |} |})
  /\ (is_ok (Birthday_init s_32_13_2000) = false ->
      add_birthday s_32_13_2000
        (set_birthday john_two_phones
           (Some {| birthday_value := s_01_11_1990;
                    birthday_date := {| year := 1990; month := 11; day := 1 |} |}))
      = (Raise (ValueError MsgDateFormat),
         set_birthday john_two_phones
           (Some {| birthday_value := s_01_11_1990;
                    birthday_date := {| year := 1990; month := 11; day := 1 |} |}))).
Proof.
  apply (add_birthday_overwrites john_two_phones s_32_13_2000 s_01_11_1990
           {| year := 1990; month := 11; day := 1 |}).
  exists [48; 49], [49; 49], [49; 57; 57; 48]. vm_compute. repeat split.
Defined.

(* ================================================================== *)
(** * Records of a reachable book are well formed *)
(* ================================================================== *)

Lemma Phone_init_ok_phone (p : str) (q : Phone) : Phone_init p = Ok q -> phone_ok q.
Proof.
  destruct (Phone_init_cases p) as [[E H] | [E _]]; rewrite E; [| discriminate].
  intros [= <-]. exact H.
Qed.

Lemma Birthday_init_ok_birthday (s : str) (b : Birthday) :
  Birthday_init s = Ok b -> birthday_ok b.
Proof.
  destruct (Birthday_init_cases s) as [[dt [Ht E]] | [_ E]]; rewrite E; [| discriminate].
  intros [= <-]. exact Ht.
Qed.

Lemma Forall_list_remove (P : Phone -> Prop) (x : Phone) (ps : list Phone) :
  Forall P ps -> Forall P (list_remove x ps).
Proof.
  induction 1 as [|q ps Hq Hps IH]; simpl; [constructor |].
  destruct (str_eqb (phone_value q) (phone_value x)); [exact Hps |].
  constructor; assumption.
Qed.

Lemma add_phone_ok p self : record_ok self -> record_ok (snd (add_phone p self)).
Proof.
  intros H. unfold add_phone. destruct (Phone_init p) as [q|e] eqn:E; [| exact H].
  destruct H as [H1 [H2 [H3 H4]]]. repeat split; try assumption. simpl.
  apply Forall_app. split; [exact H3 |].
  constructor; [eapply Phone_init_ok_phone, E | constructor].
Qed.

Lemma remove_phone_ok p self : record_ok self -> record_ok (snd (remove_phone p self)).
Proof.
  intros H. unfold remove_phone. destruct (find_phone self p); [| exact H].
  destruct H as [H1 [H2 [H3 H4]]]. repeat split; try assumption. simpl.
  apply Forall_list_remove, H3.
Qed.

Lemma edit_phone_loop_ok o n self ps i :
  record_ok self -> record_ok (snd (edit_phone_loop i ps o n self)).
Proof.
  intros H. revert i. induction ps as [|p ps IH]; intros i; simpl; [exact H |].
  destruct (str_eqb (phone_value p) o); [| apply IH].
  destruct (Phone_init n) as [q|e] eqn:E; [| exact H].
  destruct H as [H1 [H2 [H3 H4]]]. repeat split; try assumption. simpl.
  apply Forall_insert; [exact H3 | eapply Phone_init_ok_phone, E].
Qed.

Lemma edit_phone_ok o n self : record_ok self -> record_ok (snd (edit_phone o n self)).
Proof. apply edit_phone_loop_ok. Qed.

Lemma add_birthday_ok b self : record_ok self -> record_ok (snd (add_birthday b self)).
Proof.
  intros H. unfold add_birthday. destruct (Birthday_init b) as [x|e] eqn:E; [| exact H].
  destruct H as [H1 [H2 [H3 H4]]]. repeat split; try assumption. simpl.
  intros b' [= <-]. eapply Birthday_init_ok_birthday, E.
Qed.

Lemma dict_set_keys {V} (d : list (str * V)) (k : str) (v : V) :
  map fst (dict_set d k v)
  = if dict_contains d k then map fst d else map fst d ++ [k].
Proof.
  unfold dict_contains. induction d as [|[k' v'] d IH]; simpl; [reflexivity |].
  destruct (str_eqb k' k) eqn:E; simpl; [reflexivity |].
  rewrite IH. destruct (dict_get d k); reflexivity.
Qed.

Lemma dict_del_keys {V} (d : list (str * V)) (k : str) :
  List.NoDup (map fst d) ->
  map fst (dict_del d k) = List.filter (fun x => negb (str_eqb x k)) (map fst d).
Proof.
  induction d as [|[k' v'] d IH]; simpl; [reflexivity |].
  intros Hn. apply List.NoDup_cons_iff in Hn. destruct Hn as [Hk Hn].
  destruct (str_eqb k' k) eqn:E; simpl.
  - apply str_eqb_eq in E. subst k'. symmetry.
    clear IH Hn. induction d as [|[k2 v2] d IH]; simpl; [reflexivity |].
    simpl in Hk.
    destruct (str_eqb k2 k) eqn:E2.
    + apply str_eqb_eq in E2. exfalso. apply Hk. left. exact E2.
    + simpl. f_equal. apply IH. tauto.
  - f_equal. apply IH, Hn.
Qed.

Lemma dict_set_keys_NoDup {V} (d : list (str * V)) (k : str) (v : V) :
  List.NoDup (map fst d) -> List.NoDup (map fst (dict_set d k v)).
Proof.
  intros H. rewrite dict_set_keys. unfold dict_contains.
  destruct (dict_get d k) eqn:E; [exact H |].
  apply dict_get_none in E.
  apply List.NoDup_app; [exact H | constructor; [intros [] | constructor] |].
  intros x Hx [-> | []]. exact (E Hx).
Qed.

Lemma dict_get_set_other {V} (d : list (str * V)) (k0 k : str) (v : V) :
  k <> k0 -> dict_get (dict_set d k0 v) k = dict_get d k.
Proof.
  intros Hne. induction d as [|[k' v'] d IH]; simpl.
  - destruct (str_eqb k0 k) eqn:E; [| reflexivity].
    apply str_eqb_eq in E. congruence.
  - destruct (str_eqb k' k0) eqn:E0; simpl.
    + apply str_eqb_eq in E0. subst k'.
      destruct (str_eqb k0 k) eqn:E; [| reflexivity].
      apply str_eqb_eq in E. congruence.
    + destruct (str_eqb k' k); [reflexivity | exact IH].
Qed.

Lemma dict_get_del_other {V} (d : list (str * V)) (k0 k : str) :
  k <> k0 -> dict_get (dict_del d k0) k = dict_get d k.
Proof.
  intros Hne. induction d as [|[k' v'] d IH]; simpl; [reflexivity |].
  destruct (str_eqb k' k0) eqn:E0; simpl.
  - apply str_eqb_eq in E0. subst k'.
    destruct (str_eqb k0 k) eqn:E; [| reflexivity].
    apply str_eqb_eq in E. congruence.
  - destruct (str_eqb k' k); [reflexivity | exact IH].
Qed.

Lemma dict_get_del_same {V} (d : list (str * V)) (k : str) :
  List.NoDup (map fst d) -> dict_get (dict_del d k) k = None.
Proof.
  intros H. apply dict_get_none. rewrite dict_del_keys by exact H.
  intros Hin. apply filter_In in Hin. destruct Hin as [_ Hin].
  rewrite str_eqb_refl in Hin. discriminate.
Qed.

(** The invariant of this part: records are well formed and keys unique. *)
Lemma sound_empty : heap_ok empty_state /\ List.NoDup (keys empty_state).
Proof.
  split; [| constructor]. intros l r H. destruct l; discriminate.
Qed.

Lemma fresh_record_ok (nm : str) : strip nm <> [] -> record_ok (fresh_record nm).
Proof.
  intros H. unfold record_ok, fresh_record. simpl.
  split; [exact H |]. split; [apply strip_idempotent |].
  split; [constructor | discriminate].
Qed.

Lemma sound_Record_new nm st :
  heap_ok st /\ List.NoDup (keys st) ->
  heap_ok (snd (Record_new nm st)) /\ List.NoDup (keys (snd (Record_new nm st))).
Proof.
  intros [H1 H2]. unfold Record_new, Record_init.
  destruct (Name_init nm) as [n|e] eqn:E; simpl; [| split; assumption].
  split; [| exact H2]. intros l r Hl. simpl in Hl.
  apply lookup_app_Some in Hl. destruct Hl as [Hl | [_ Hl]]; [eapply H1, Hl |].
  destruct (l - length (heap st))%nat; simpl in Hl; [| destruct n0; discriminate].
  injection Hl as <-.
  pose proof (Name_init_trimmed nm n E) as Hv.
  assert (strip nm <> []) as Hne.
  { intros H. unfold Name_init in E. rewrite H in E. simpl in E.
    rewrite orb_true_r in E. discriminate. }
  unfold record_ok. simpl. rewrite Hv. split; [exact Hne |].
  split; [apply strip_idempotent |]. split; [constructor | discriminate].
Qed.

Lemma sound_add_record rec st :
  heap_ok st /\ List.NoDup (keys st) ->
  heap_ok (snd (add_record rec st)) /\ List.NoDup (keys (snd (add_record rec st))).
Proof.
  intros [H1 H2]. unfold add_record.
  destruct (heap st !! rec) as [r|]; simpl; [| split; assumption].
  split; [exact H1 |]. unfold keys. simpl. apply dict_set_keys_NoDup, H2.
Qed.

Lemma sound_delete nm st :
  heap_ok st /\ List.NoDup (keys st) ->
  heap_ok (snd (delete nm st)) /\ List.NoDup (keys (snd (delete nm st))).
Proof.
  intros [H1 H2]. unfold delete.
  destruct (dict_contains (data st) nm); simpl; [| split; assumption].
  split; [exact H1 |]. unfold keys. simpl.
  rewrite dict_del_keys by exact H2. apply List.NoDup_filter, H2.
Qed.

Lemma sound_call {A} (l : nat) (f : method A) (dflt : A) st :
  (forall self, record_ok self -> record_ok (snd (f self))) ->
  heap_ok st /\ List.NoDup (keys st) ->
  heap_ok (snd (call l f dflt st)) /\ List.NoDup (keys (snd (call l f dflt st))).
Proof.
  intros Hf [H1 H2]. unfold call.
  destruct (heap st !! l) as [self|] eqn:E; [| split; assumption].
  specialize (Hf self (H1 l self E)). destruct (f self) as [out self']. simpl in *.
  split; [| exact H2]. intros l' r' Hl. simpl in Hl.
  destruct (decide (l = l')) as [<- | Hne].
  - rewrite list_lookup_insert_eq in Hl by (eapply lookup_lt_Some, E).
    injection Hl as <-. exact Hf.
  - rewrite list_lookup_insert_ne in Hl by exact Hne. eapply H1, Hl.
Qed.

Lemma bind_preserves {A B} (P : state -> Prop) (c : M A) (k : A -> M B) st :
  P (snd (c st)) ->
  (forall a st', P st' -> P (snd (k a st'))) ->
  P (snd (bind c k st)).
Proof.
  intros Hc Hk. unfold bind. destruct (c st) as [[a|e] st']; simpl in *.
  - apply Hk, Hc.
  - exact Hc.
Qed.

Lemma sound_add_contact args st :
  heap_ok st /\ List.NoDup (keys st) ->
  heap_ok (snd (add_contact args st)) /\ List.NoDup (keys (snd (add_contact args st))).
Proof.
  intros H. rewrite add_contact_state. unfold add_contact_body.
  destruct args as [|nm [|phone rest]]; try exact H.
  apply (bind_preserves (fun s => heap_ok s /\ List.NoDup (keys s))); [exact H |].
  intros found st1 H1.
  apply (bind_preserves (fun s => heap_ok s /\ List.NoDup (keys s))).
  - destruct found as [rec|]; [exact H1 |].
    apply (bind_preserves (fun s => heap_ok s /\ List.NoDup (keys s)));
      [apply sound_Record_new, H1 |].
    intros rec st2 H2.
    apply (bind_preserves (fun s => heap_ok s /\ List.NoDup (keys s)));
      [apply sound_add_record, H2 |].
    intros _ st3 H3. exact H3.
  - intros rm st2 H2.
    apply (bind_preserves (fun s => heap_ok s /\ List.NoDup (keys s))).
    + destruct (truthy phone); [| exact H2].
      apply sound_call; [apply add_phone_ok | exact H2].
    + intros _ st3 H3. exact H3.
Qed.

Lemma reachable_sound st : reachable st -> heap_ok st /\ List.NoDup (keys st).
Proof.
  induction 1 as [|o st _ IH]; [apply sound_empty |].
  destruct o; simpl.
  - apply sound_Record_new, IH.
  - apply sound_add_record, IH.
  - apply sound_delete, IH.
  - apply sound_call; [apply add_phone_ok | exact IH].
  - apply sound_call; [apply remove_phone_ok | exact IH].
  - apply sound_call; [apply edit_phone_ok | exact IH].
  - apply sound_call; [apply add_birthday_ok | exact IH].
  - apply sound_add_contact, IH.
Qed.

(** X9 ([Name.__init__], [Phone.__init__], [Birthday.__init__] and the
    [Record] methods): in every reachable book each stored record has a
    non-empty trimmed name, only phones of ten digit characters, and, if a
    birthday is set, one whose date is a calendar date read from its text. *)
Theorem reachable_records_are_well_formed (st : state) (k : str) (r : record) :
  reachable st ->
  lookup_record st k = Some r ->
  name_value (name r) <> []
  /\ strip (name_value (name r)) = name_value (name r)
  /\ Forall phone_ok (phones r)
  /\ (forall b, birthday r = Some b ->
        birthday_text (birthday_value b) (birthday_date b)
        /\ valid_date (birthday_date b) = true).
Proof.
  intros Hr Hk. destruct (reachable_sound st Hr) as [Hh _].
  unfold lookup_record in Hk. destruct (dict_get (data st) k) as [l|]; [| discriminate].
  destruct (Hh l r Hk) as [H1 [H2 [H3 H4]]].
  split; [exact H1 |]. split; [exact H2 |]. split; [exact H3 |].
  intros b Hb. specialize (H4 b Hb). split; [exact H4 |].
  destruct H4 as [td [tm [ty [_ [_ [_ [_ Hv]]]]]]]. exact Hv.
Qed.

(** X10 ([AddressBook.add_record], [AddressBook.delete]): in every reachable
    book the keys are pairwise different, and no record object is stored
    under two keys, so a change made to one contact is never seen under
    another name. *)
Theorem reachable_keys_unique (st : state) :
  reachable st ->
  List.NoDup (keys st)
  /\ (forall k1 k2 l,
        dict_get (data st) k1 = Some l -> dict_get (data st) k2 = Some l -> k1 = k2).
Proof.
  intros Hr. destruct (reachable_sound st Hr) as [_ Hn]. split; [exact Hn |].
  intros k1 k2 l H1 H2. destruct (reachable_book_inv st Hr) as [Hb _].
  destruct (Hb k1 l (dict_get_some _ _ _ H1)) as [r1 [Hl1 Hn1]].
  destruct (Hb k2 l (dict_get_some _ _ _ H2)) as [r2 [Hl2 Hn2]].
  congruence.
Qed.

Lemma reachable_run_all (os : list op) (st : state) :
  reachable st -> reachable (run_all os st).
Proof.
  revert st. induction os as [|o os IH]; intros st H; [exact H |].
  apply IH, reachable_step, H.
Qed.

Lemma reachable_records_are_well_formed_witness :
  name_value (name john_one_phone) <> []
  /\ strip (name_value (name john_one_phone)) = name_value (name john_one_phone)
  /\ Forall phone_ok (phones john_one_phone)
  /\ (forall b, birthday john_one_phone = Some b ->
        birthday_text (birthday_value b) (birthday_date b)
        /\ valid_date (birthday_date b) = true).
Proof.
  apply (reachable_records_are_well_formed book_with_john s_John john_one_phone).
  - apply reachable_step, reachable_empty.
  - reflexivity.
Defined.

Lemma reachable_keys_unique_witness :
  List.NoDup (keys autumn_book)
  /\ (forall k1 k2 l,
        dict_get (data autumn_book) k1 = Some l ->
        dict_get (data autumn_book) k2 = Some l -> k1 = k2).
Proof.
  apply (reachable_keys_unique autumn_book).
  apply reachable_run_all, reachable_empty.
Defined.

(* ================================================================== *)
(** * [AddressBook]: storing, finding, deleting *)
(* ================================================================== *)

(** X11 ([AddressBook.add_record], [AddressBook.find]): after a record is
    added, [find] of its name returns that record and every other name is
    found as before; a new name goes last in the iteration order, a name
    already present keeps its place and its old record is replaced. *)
Theorem add_record_then_find (st : state) (rec : nat) (r : record) :
  heap st !! rec = Some r ->
  exists st',
    add_record rec st = (Ok tt, st')
    /\ heap st' = heap st
    /\ find (name_value (name r)) st' = (Ok (Some rec), st')
    /\ (forall k, k <> name_value (name r) ->
          dict_get (data st') k = dict_get (data st) k)
    /\ keys st'
       = if dict_contains (data st) (name_value (name r))
         then keys st else keys st ++ [name_value (name r)].
Proof.
  intros Hl. unfold add_record. rewrite Hl.
  eexists. split; [reflexivity |]. split; [reflexivity |].
  unfold find, keys. simpl. split; [rewrite dict_get_set_same; reflexivity |].
  split; [intros k Hk; apply dict_get_set_other, Hk | apply dict_set_keys].
Qed.

Lemma add_record_then_find_witness :
  exists st',
    add_record 0%nat john_state = (Ok tt, st')
    /\ heap st' = heap john_state
    /\ find (name_value (name john_two_phones)) st' = (Ok (Some 0%nat), st')
    /\ (forall k, k <> name_value (name john_two_phones) ->
          dict_get (data st') k = dict_get (data john_state) k)
    /\ keys st'
       = if dict_contains (data john_state) (name_value (name john_two_phones))
         then keys john_state
         else keys john_state ++ [name_value (name john_two_phones)].
Proof.
  apply (add_record_then_find john_state 0%nat john_two_phones).
  reflexivity.
Defined.

(** X12 ([AddressBook.delete]): deleting a name that is a key of a book
    with pairwise different keys succeeds; afterwards the name is not found,
    every other name is found as before and in the same order, and the
    record objects themselves are untouched. *)
Theorem delete_present_removes_only_that_key (st : state) (nm : str) (l : nat) :
  List.NoDup (keys st) ->
  dict_get (data st) nm = Some l ->
  exists st',
    delete nm st = (Ok tt, st')
    /\ heap st' = heap st
    /\ find nm st' = (Ok None, st')
    /\ (forall k, k <> nm -> dict_get (data st') k = dict_get (data st) k)
    /\ keys st' = List.filter (fun k => negb (str_eqb k nm)) (keys st).
Proof.
  intros Hn Hk. unfold delete, dict_contains. rewrite Hk.
  eexists. split; [reflexivity |]. split; [reflexivity |].
  unfold find, keys. simpl.
  split; [rewrite dict_get_del_same by exact Hn; reflexivity |].
  split; [intros k Hne; apply dict_get_del_other, Hne | apply dict_del_keys, Hn].
Qed.

Lemma delete_present_removes_only_that_key_witness :
  exists st',
    delete s_John autumn_book = (Ok tt, st')
    /\ heap st' = heap autumn_book
    /\ find s_John st' = (Ok None, st')
    /\ (forall k, k <> s_John ->
          dict_get (data st') k = dict_get (data autumn_book) k)
    /\ keys st' = List.filter (fun k => negb (str_eqb k s_John)) (keys autumn_book).
Proof.
  apply (delete_present_removes_only_that_key autumn_book s_John 0%nat).
  - vm_compute. constructor; [| constructor; [| constructor]].
    + intros [H | []]. discriminate.
    + intros [].
  - reflexivity.
Defined.

(* ================================================================== *)
(** * The handlers [add_contact], [change_contact] and [add_birthday] *)
(* ================================================================== *)

Lemma valid_phone_truthy (p : str) : is_ok (Phone_init p) = true -> truthy p = true.
Proof.
  destruct (Phone_init_cases p) as [[_ [Hl _]] | [E _]].
  - intros _. destruct p; [discriminate | reflexivity].
  - rewrite E. discriminate.
Qed.

Lemma insert_fresh (h : list record) (r r' : record) :
  <[length h := r']> (h ++ [r]) = h ++ [r'].
Proof.
  replace (length h) with (length h + 0)%nat by lia.
  rewrite insert_app_r. reflexivity.
Qed.

Lemma state_eta (st : state) : {| heap := heap st; data := data st |} = st.
Proof. destruct st; reflexivity. Qed.

Lemma with_object_same (st : state) (l : nat) (r : record) :
  heap st !! l = Some r -> with_object st l r = st.
Proof.
  intros H. unfold with_object. rewrite (list_insert_id _ _ _ H). apply state_eta.
Qed.

Lemma lookup_with_object_other (st : state) (l l' : nat) (r : record) (k : str) :
  dict_get (data st) k = Some l' -> l' <> l ->
  lookup_record (with_object st l r) k = lookup_record st k.
Proof.
  intros Hk Hne. unfold lookup_record, with_object. simpl. rewrite Hk.
  apply list_lookup_insert_ne. congruence.
Qed.

Lemma lookup_with_object_same (st : state) (l : nat) (r r' : record) (k : str) :
  dict_get (data st) k = Some l -> heap st !! l = Some r ->
  lookup_record (with_object st l r') k = Some r'.
Proof.
  intros Hk Hl. unfold lookup_record, with_object. simpl. rewrite Hk.
  apply list_lookup_insert_eq. eapply lookup_lt_Some, Hl.
Qed.

Lemma add_contact_new_valid (st : state) (nm phone : str) (rest : list str) :
  dict_get (data st) nm = None ->
  strip nm <> [] ->
  is_ok (Phone_init phone) = true ->
  add_contact (nm :: phone :: rest) st
  = (ContactAdded,
     {| heap := heap st ++ [with_phone (fresh_record nm) phone];
        data := dict_set (data st) (strip nm) (length (heap st)) |}).
Proof.
  intros Hk Hn Hv.
  unfold add_contact, input_error, add_contact_body, bind, find, ret.
  rewrite Hk, (Record_new_ok nm st Hn), add_record_fresh. cbn [fst snd].
  rewrite (valid_phone_truthy phone Hv).
  unfold call. cbn [heap data]. rewrite lookup_fresh.
  unfold add_phone. rewrite (Phone_init_valid phone Hv).
  rewrite insert_fresh. reflexivity.
Qed.

Lemma lookup_new_contact (st : state) (nm : str) (r : record) :
  lookup_record {| heap := heap st ++ [r];
                   data := dict_set (data st) (strip nm) (length (heap st)) |}
    (strip nm)
  = Some r.
Proof.
  unfold lookup_record. cbn [data heap]. rewrite dict_get_set_same. apply lookup_fresh.
Qed.

Lemma add_contact_known_valid
    (st : state) (nm phone : str) (rest : list str) (l : nat) (r : record) :
  dict_get (data st) nm = Some l ->
  heap st !! l = Some r ->
  is_ok (Phone_init phone) = true ->
  add_contact (nm :: phone :: rest) st
  = (ContactUpdated, with_object st l (with_phone r phone)).
Proof.
  intros Hk Hl Hv.
  unfold add_contact, input_error, add_contact_body, bind, find, ret.
  rewrite Hk. cbn [fst snd]. rewrite (valid_phone_truthy phone Hv).
  unfold call. rewrite Hl.
  unfold add_phone. rewrite (Phone_init_valid phone Hv). reflexivity.
Qed.

(** X13 ([add_contact], new contact): for a name that is not a key and not
    blank, and a well-formed phone, the answer is "Contact added." and the
    book then holds, under the trimmed name, a new record with exactly that
    phone; arguments after the second are ignored. *)
Theorem add_contact_adds_new_contact (st : state) (nm phone : str) (rest : list str) :
  dict_get (data st) nm = None ->
  strip nm <> [] ->
  is_ok (Phone_init phone) = true ->
  add_contact (nm :: phone :: rest) st
  = (ContactAdded,
     {| heap := heap st ++ [with_phone (fresh_record nm) phone];
        data := dict_set (data st) (strip nm) (length (heap st)) |})
  /\ lookup_record (snd (add_contact (nm :: phone :: rest) st)) (strip nm)
     = Some (with_phone (fresh_record nm) phone).
Proof.
  intros Hk Hn Hv.
  pose proof (add_contact_new_valid st nm phone rest Hk Hn Hv) as E.
  split; [exact E |]. rewrite E. cbn [snd]. apply lookup_new_contact.
Qed.

Lemma add_contact_adds_new_contact_witness :
  add_contact (s_Jane :: s_0987654321 :: [s_123]) book_with_john
  = (ContactAdded,
     {| heap := heap book_with_john ++ [with_phone (fresh_record s_Jane) s_0987654321];
        data := dict_set (data book_with_john) (strip s_Jane)
                  (length (heap book_with_john)) |})
  /\ lookup_record (snd (add_contact (s_Jane :: s_0987654321 :: [s_123]) book_with_john))
       (strip s_Jane)
     = Some (with_phone (fresh_record s_Jane) s_0987654321).
Proof.
  apply (add_contact_adds_new_contact book_with_john s_Jane s_0987654321 [s_123]).
  - reflexivity.
  - discriminate.
  - reflexivity.
Defined.

(** X14 ([add_contact], known contact): for a name that is a key and a
    well-formed phone, the answer is "Contact updated.", the phone is
    appended to the phones of the stored record, and the records stored as
    other objects are as before. *)
Theorem add_contact_appends_to_known_contact
    (st : state) (nm phone : str) (rest : list str) (l : nat) (r : record) :
  dict_get (data st) nm = Some l ->
  heap st !! l = Some r ->
  is_ok (Phone_init phone) = true ->
  add_contact (nm :: phone :: rest) st
  = (ContactUpdated, with_object st l (with_phone r phone))
  /\ lookup_record (with_object st l (with_phone r phone)) nm
     = Some (with_phone r phone)
  /\ (forall k l', dict_get (data st) k = Some l' -> l' <> l ->
        lookup_record (with_object st l (with_phone r phone)) k
        = lookup_record st k).
Proof.
  intros Hk Hl Hv. split; [| split].
  - apply add_contact_known_valid; assumption.
  - eapply lookup_with_object_same; eassumption.
  - intros k l' Hk' Hne. eapply lookup_with_object_other; eassumption.
Qed.

Lemma add_contact_appends_to_known_contact_witness :
  add_contact (s_John :: s_5555555555 :: []) book_with_john
  = (ContactUpdated,
     with_object book_with_john 0%nat (with_phone john_one_phone s_5555555555))
  /\ lookup_record
       (with_object book_with_john 0%nat (with_phone john_one_phone s_5555555555))
       s_John
     = Some (with_phone john_one_phone s_5555555555)
  /\ (forall k l', dict_get (data book_with_john) k = Some l' -> l' <> 0%nat ->
        lookup_record
          (with_object book_with_john 0%nat (with_phone john_one_phone s_5555555555)) k
        = lookup_record book_with_john k).
Proof.
  apply (add_contact_appends_to_known_contact book_with_john s_John s_5555555555 []
           0%nat john_one_phone).
  - reflexivity.
  - reflexivity.
  - reflexivity.
Defined.

(** X15 ([add_contact], errors): when the answer is an error text, the book
    is unchanged unless the name is a new name that is not blank: too few
    arguments, a blank name, and a malformed phone for a known contact all
    leave the book as it was. *)
Theorem add_contact_error_keeps_book (args : list str) (st : state) :
  is_error_reply (fst (add_contact args st)) = true ->
  (forall nm rest, args = nm :: rest ->
     dict_get (data st) nm <> None \/ strip nm = []) ->
  snd (add_contact args st) = st.
Proof.
  intros Herr Hname.
  destruct args as [|nm [|phone rest]]; [reflexivity | reflexivity |].
  revert Herr. unfold add_contact, input_error, add_contact_body, bind, find, ret.
  destruct (dict_get (data st) nm) as [l|] eqn:Hk.
  - cbn [fst snd]. destruct (truthy phone); [| intros H; discriminate H].
    unfold call. destruct (heap st !! l) as [r|] eqn:Hl; [| intros H; discriminate H].
    unfold add_phone. destruct (Phone_init phone) as [q|e]; [intros H; discriminate H |].
    intros _. destruct e; cbn [snd]; apply (with_object_same st l r Hl).
  - destruct (Hname nm (phone :: rest) eq_refl) as [H | H]; [congruence |].
    unfold Record_new, Record_init, Name_init. rewrite H. cbn [truthy].
    rewrite orb_true_r. intros _. reflexivity.
Qed.

Lemma add_contact_error_keeps_book_witness :
  snd (add_contact [s_John; s_123] book_with_john) = book_with_john.
Proof.
  apply (add_contact_error_keeps_book [s_John; s_123] book_with_john).
  - reflexivity.
  - intros nm rest [= <- <-]. left. discriminate.
Defined.

(** X16 ([add_contact], [Name.__init__], [AddressBook.find]): a raw name with
    whitespace at an end is looked up as it is but stored trimmed; when the
    trimmed name is already a contact of a reachable book, the answer is
    "Contact added." and the stored record is replaced by a new one that
    holds only the new phone. *)
Theorem add_contact_untrimmed_name_replaces_contact
    (st : state) (nm phone : str) (rest : list str) (r0 : record) :
  reachable st ->
  outer_whitespace nm = true ->
  lookup_record st (strip nm) = Some r0 ->
  is_ok (Phone_init phone) = true ->
  fst (add_contact (nm :: phone :: rest) st) = ContactAdded
  /\ lookup_record (snd (add_contact (nm :: phone :: rest) st)) (strip nm)
     = Some (with_phone (fresh_record nm) phone)
  /\ keys (snd (add_contact (nm :: phone :: rest) st)) = keys st.
Proof.
  intros Hr Hw Hl Hv.
  pose proof (reachable_book_inv st Hr) as [Hb1 Hb2].
  pose proof (outer_whitespace_not_fixed nm Hw) as Hne.
  assert (dict_get (data st) nm = None) as Hk.
  { destruct (dict_get (data st) nm) as [l|] eqn:E; [exfalso | reflexivity].
    destruct (Hb1 nm l (dict_get_some _ _ _ E)) as [r [Hr' Hn]].
    apply Hb2 in Hr'. rewrite Hn in Hr'. exact (Hne Hr'). }
  assert (strip nm <> []) as Hs.
  { unfold lookup_record in Hl.
    destruct (dict_get (data st) (strip nm)) as [l|] eqn:E; [| discriminate].
    destruct (reachable_sound st Hr) as [Hh _].
    destruct (Hb1 _ l (dict_get_some _ _ _ E)) as [r [Hr' Hn]].
    destruct (Hh l r Hr') as [H1 _]. rewrite Hn in H1. exact H1. }
  pose proof (add_contact_new_valid st nm phone rest Hk Hs Hv) as E1.
  split; [rewrite E1; reflexivity |].
  split; [rewrite E1; cbn [snd]; apply lookup_new_contact |].
  rewrite E1. unfold keys. cbn [snd data]. rewrite dict_set_keys.
  unfold dict_contains, lookup_record in *.
  destruct (dict_get (data st) (strip nm)); [reflexivity | discriminate].
Qed.

Lemma add_contact_untrimmed_name_replaces_contact_witness :
  fst (add_contact (s_John_padded :: s_0987654321 :: []) book_with_john) = ContactAdded
  /\ lookup_record
       (snd (add_contact (s_John_padded :: s_0987654321 :: []) book_with_john))
       (strip s_John_padded)
     = Some (with_phone (fresh_record s_John_padded) s_0987654321)
  /\ keys (snd (add_contact (s_John_padded :: s_0987654321 :: []) book_with_john))
     = keys book_with_john.
Proof.
  apply (add_contact_untrimmed_name_replaces_contact book_with_john s_John_padded
           s_0987654321 [] john_one_phone).
  - apply reachable_step, reachable_empty.
  - reflexivity.
  - reflexivity.
  - reflexivity.
Defined.

Lemma call_raise_unchanged {A} (l : nat) (f : method A) (dflt : A) (st : state) (e : exn) :
  (forall self e', fst (f self) = Raise e' -> snd (f self) = self) ->
  fst (call l f dflt st) = Raise e -> snd (call l f dflt st) = st.
Proof.
  intros Hf. unfold call. destruct (heap st !! l) as [self|] eqn:Hl; [| discriminate].
  specialize (Hf self). destruct (f self) as [out self']. cbn [fst snd] in *.
  intros ->. rewrite (Hf e eq_refl). apply (with_object_same st l self Hl).
Qed.

(** X17 ([change_contact], failures): unless the answer is
    "Contact updated.", the book is exactly as before: too few arguments, an
    unknown name, an old phone the contact does not have and a malformed new
    phone all change nothing. *)
Theorem change_contact_failure_keeps_book (args : list str) (st : state) :
  fst (change_contact args st) <> Said ContactUpdated ->
  snd (change_contact args st) = st.
Proof.
  destruct args as [|nm [|o [|n rest]]]; try reflexivity.
  unfold change_contact, input_error_answer, change_contact_body, bind, find, ret.
  destruct (dict_get (data st) nm) as [l|]; [| reflexivity].
  pose proof (call_raise_unchanged l (edit_phone o n) tt st) as Hc.
  destruct (call l (edit_phone o n) tt st) as [[u|e] st'] eqn:E; cbn [fst snd] in *.
  - intros H. exfalso. apply H. reflexivity.
  - intros _. specialize (Hc e (fun self e' => edit_phone_raise_unchanged self o n e') eq_refl).
    destruct e; exact Hc.
Qed.

Lemma change_contact_failure_keeps_book_witness :
  snd (change_contact [s_John; s_1234567890; s_123] book_with_john) = book_with_john.
Proof.
  apply (change_contact_failure_keeps_book [s_John; s_1234567890; s_123] book_with_john).
  vm_compute. discriminate.
Defined.

(** X18 ([change_contact], success): for a known contact that has the old
    phone and a well-formed new phone, the answer is "Contact updated." and
    the first phone carrying the old number is replaced in place in the
    stored record; an unknown name is answered with the not-found text. *)
Theorem change_contact_replaces_phone
    (st : state) (nm old new : str) (rest : list str) (l : nat) (r : record)
    (before after : list Phone) (p : Phone) :
  dict_get (data st) nm = Some l ->
  heap st !! l = Some r ->
  phones r = before ++ p :: after ->
  phone_value p = old ->
  ~ In old (map phone_value before) ->
  is_ok (Phone_init new) = true ->
  change_contact (nm :: old :: new :: rest) st
  = (Said ContactUpdated,
     with_object st l (set_phones r (before ++ {| phone_value := new |} :: after)))
  /\ (forall other, dict_get (data st) other = None ->
        change_contact (other :: old :: new :: rest) st = (ContactNotFound other, st)).
Proof.
  intros Hk Hl Hs Hp Hb Hv. split.
  - unfold change_contact, input_error_answer, change_contact_body, bind, find, ret.
    rewrite Hk. unfold call. rewrite Hl.
    pose proof (edit_phone_loop_split r old new [] before after p Hs Hp Hb Hv) as He.
    change (length (@nil Phone)) with 0%nat in He.
    unfold edit_phone. rewrite Hs, He. reflexivity.
  - intros other Ho.
    unfold change_contact, input_error_answer, change_contact_body, bind, find, ret.
    rewrite Ho. reflexivity.
Qed.

Lemma change_contact_replaces_phone_witness :
  change_contact (s_John :: s_1234567890 :: s_0987654321 :: []) john_state
  = (Said ContactUpdated,
     with_object john_state 0%nat
       (set_phones john_two_phones
          ([] ++ {| phone_value := s_0987654321 |}
              :: [ {| phone_value := s_5555555555 |} ])))
  /\ (forall other, dict_get (data john_state) other = None ->
        change_contact (other :: s_1234567890 :: s_0987654321 :: []) john_state
        = (ContactNotFound other, john_state)).
Proof.
  apply (change_contact_replaces_phone john_state s_John s_1234567890 s_0987654321 []
           0%nat john_two_phones [] [ {| phone_value := s_5555555555 |} ]
           {| phone_value := s_1234567890 |}).
  - reflexivity.
  - reflexivity.
  - reflexivity.
  - reflexivity.
  - simpl. tauto.
  - reflexivity.
Defined.

(** X19 (handler [add_birthday]): for a known contact and a date text that
    reads as a calendar date, the answer is "Birthday added." and the stored
    record gets that birthday, replacing any earlier one; its name and
    phones stay. *)
Theorem add_birthday_command_sets_birthday
    (st : state) (nm bd : str) (rest : list str) (l : nat) (r : record) (dt : date) :
  dict_get (data st) nm = Some l ->
  heap st !! l = Some r ->
  birthday_text bd dt ->
  add_birthday_command (nm :: bd :: rest) st
  = (BirthdayAdded,
     with_object st l
       (set_birthday r (Some {| birthday_value := bd; birthday_date := dt |})))
  /\ lookup_record
       (with_object st l
          (set_birthday r (Some {| birthday_value := bd; birthday_date := dt |}))) nm
     = Some (set_birthday r (Some {| birthday_value := bd; birthday_date := dt |})).
Proof.
  intros Hk Hl Ht. split.
  - unfold add_birthday_command, input_error_answer, add_birthday_body, bind, find, ret.
    rewrite Hk. unfold call. rewrite Hl. unfold add_birthday.
    destruct (Birthday_init_cases bd) as [[dt' [Ht' E]] | [Hn _]].
    + rewrite E, (birthday_text_unique bd dt dt' Ht Ht'). reflexivity.
    + exfalso. apply Hn. exists dt. exact Ht.
  - eapply lookup_with_object_same; eassumption.
Qed.

Lemma add_birthday_command_sets_birthday_witness :
  add_birthday_command (s_John :: s_01_11_1990 :: []) book_with_john
  = (BirthdayAdded,
     with_object book_with_john 0%nat
       (set_birthday john_one_phone
          (Some {| birthday_value := s_01_11_1990;
                   birthday_date := {| year := 1990; month := 11; day := 1 |} |})))
  /\ lookup_record
       (with_object book_with_john 0%nat
          (set_birthday john_one_phone
             (Some {| birthday_value := s_01_11_1990;
                      birthday_date := {| year := 1990; month := 11; day := 1 |} |})))
       s_John
     = Some (set_birthday john_one_phone
               (Some {| birthday_value := s_01_11_1990;
                        birthday_date := {| year := 1990; month := 11; day := 1 |} |})).
Proof.
  apply (add_birthday_command_sets_birthday book_with_john s_John s_01_11_1990 []
           0%nat john_one_phone {| year := 1990; month := 11; day := 1 |}).
  - reflexivity.
  - reflexivity.
  - exists [48; 49], [49; 49], [49; 57; 57; 48]. vm_compute. repeat split.
Defined.

(** X20 (handler [add_birthday], failures): unless the answer is
    "Birthday added.", the book is exactly as before: too few arguments, an
    unknown name and a malformed or impossible date change nothing, and a
    birthday already set stays. *)
Theorem add_birthday_command_failure_keeps_book (args : list str) (st : state) :
  fst (add_birthday_command args st) <> BirthdayAdded ->
  snd (add_birthday_command args st) = st.
Proof.
  destruct args as [|nm [|bd rest]]; try reflexivity.
  unfold add_birthday_command, input_error_answer, add_birthday_body, bind, find, ret.
  destruct (dict_get (data st) nm) as [l|]; [| reflexivity].
  pose proof (call_raise_unchanged l (add_birthday bd) tt st) as Hc.
  destruct (call l (add_birthday bd) tt st) as [[u|e] st'] eqn:E; cbn [fst snd] in *.
  - intros H. exfalso. apply H. reflexivity.
  - intros _.
    specialize (Hc e (fun self e' => add_birthday_raise_unchanged self bd e') eq_refl).
    destruct e; exact Hc.
Qed.

Lemma add_birthday_command_failure_keeps_book_witness :
  snd (add_birthday_command [s_John; s_32_13_2000] book_with_john) = book_with_john.
Proof.
  apply (add_birthday_command_failure_keeps_book [s_John; s_32_13_2000] book_with_john).
  vm_compute. discriminate.
Defined.

(* ================================================================== *)
(** * [parse_input] *)
(* ================================================================== *)

Lemma split_from_words (s word : str) :
  Forall (fun c => is_space_char c = false) word ->
  Forall is_word (split_from word s).
Proof.
  revert word. induction s as [|c s IH]; intros word Hw; simpl.
  - destruct word as [|x w]; [constructor |].
    constructor; [| constructor]. split.
    + intros H. apply (f_equal (@length Z)) in H. rewrite length_rev in H. discriminate.
    + apply Forall_rev. exact Hw.
  - destruct (is_space_char c) eqn:E.
    + destruct word as [|x w]; [apply IH; constructor |].
      constructor; [| apply IH; constructor]. split.
      * intros H. apply (f_equal (@length Z)) in H. rewrite length_rev in H.
        discriminate.
      * apply Forall_rev. exact Hw.
    + apply IH. constructor; assumption.
Qed.

Lemma split_from_nonempty (s word : str) : word <> [] -> split_from word s <> [].
Proof.
  revert word. induction s as [|c s IH]; intros word Hw; simpl.
  - destruct word; [congruence | discriminate].
  - destruct (is_space_char c).
    + destruct word; [congruence | discriminate].
    + apply IH. discriminate.
Qed.

Lemma split_strip_nonempty (line : str) :
  forallb is_space_char line = false -> split (strip line) <> [].
Proof.
  intros H. pose proof (strip_no_lead line) as Hl.
  destruct (strip line) as [|c r] eqn:E.
  - apply strip_nil_iff in E. congruence.
  - simpl in Hl. unfold split. simpl. rewrite Hl.
    apply split_from_nonempty. discriminate.
Qed.

Lemma word_is_trimmed (w : str) : is_word w -> strip w = w /\ strip w <> [].
Proof.
  intros [Hne Hw].
  assert (strip w = w) as E.
  { apply strip_fixed.
    - destruct w as [|c r]; [exact I |]. simpl. inversion Hw. assumption.
    - apply Forall_rev in Hw. destruct (rev w) as [|c r]; [exact I |].
      simpl. inversion Hw. assumption. }
  rewrite E. split; [reflexivity | exact Hne].
Qed.

(** X21 ([parse_input]): every argument is a non-empty run of characters
    without whitespace, so it equals its trimmed form; a line of whitespace
    only (or an empty line) gives the empty command and no arguments, and
    every other line gives as command the lower-cased first such run. *)
Theorem parse_input_gives_words (lower : str -> str) (line : str) :
  Forall is_word (snd (parse_input lower line))
  /\ Forall (fun a => strip a = a) (snd (parse_input lower line))
  /\ (if forallb is_space_char line
      then parse_input lower line = ([], [])
      else exists w, is_word w
                     /\ split (strip line) = w :: snd (parse_input lower line)
                     /\ fst (parse_input lower line) = lower w).
Proof.
  unfold parse_input. cbn [fst snd].
  pose proof (split_from_words (strip line) [] ltac:(constructor)) as Hw.
  fold (split (strip line)) in Hw.
  assert (Forall is_word (tl (split (strip line)))) as Ht.
  { destruct (split (strip line)); [constructor | inversion Hw; assumption]. }
  split; [exact Ht |]. split.
  - eapply List.Forall_impl; [| exact Ht]. intros a Ha. apply word_is_trimmed, Ha.
  - destruct (forallb is_space_char line) eqn:F.
    + apply strip_nil_iff in F. rewrite F. reflexivity.
    + pose proof (split_strip_nonempty line F) as Hne.
      destruct (split (strip line)) as [|w ws]; [congruence |].
      exists w. inversion Hw. split; [assumption | split; reflexivity].
Qed.

(** X22 ([parse_input], [add_contact], [AddressBook.find]): when a typed
    line is parsed into a name, a well-formed phone and possibly more, and
    the arguments are passed to [add_contact] on a reachable book, the
    contact is afterwards found under the name exactly as typed, and the
    last of its phones is the one typed. *)
Theorem typed_contact_is_found_as_typed
    (lower : str -> str) (line cmd nm phone : str) (rest : list str) (st : state) :
  reachable st ->
  parse_input lower line = (cmd, nm :: phone :: rest) ->
  is_ok (Phone_init phone) = true ->
  exists r earlier,
    lookup_record (snd (add_contact (nm :: phone :: rest) st)) nm = Some r
    /\ name_value (name r) = nm
    /\ phones r = earlier ++ [ {| phone_value := phone |} ].
Proof.
  intros Hr Hp Hv.
  assert (is_word nm) as Hw.
  { pose proof (split_from_words (strip line) [] ltac:(constructor)) as H.
    fold (split (strip line)) in H. unfold parse_input in Hp.
    injection Hp as _ Hp.
    destruct (split (strip line)) as [|w ws]; [discriminate |].
    simpl in Hp. subst ws. inversion H as [|? ? _ H']. inversion H'. assumption. }
  destruct (word_is_trimmed nm Hw) as [Hs Hne].
  destruct (dict_get (data st) nm) as [l|] eqn:Hk.
  - destruct (reachable_book_inv st Hr) as [Hb _].
    destruct (Hb nm l (dict_get_some _ _ _ Hk)) as [r [Hl Hn]].
    rewrite (add_contact_known_valid st nm phone rest l r Hk Hl Hv). cbn [snd].
    exists (with_phone r phone), (phones r).
    split; [eapply lookup_with_object_same; eassumption |].
    split; [exact Hn | reflexivity].
  - rewrite (add_contact_new_valid st nm phone rest Hk Hne Hv). cbn [snd].
    exists (with_phone (fresh_record nm) phone), [].
    split; [| split; [exact Hs | reflexivity]].
    assert (forall k, k = strip nm ->
              lookup_record
                {| heap := heap st ++ [with_phone (fresh_record nm) phone];
                   data := dict_set (data st) (strip nm) (length (heap st)) |} k
              = Some (with_phone (fresh_record nm) phone)) as H
      by (intros k ->; apply lookup_new_contact).
    apply H. symmetry. exact Hs.
Qed.

Lemma typed_contact_is_found_as_typed_witness :
  exists r earlier,
    lookup_record (snd (add_contact (s_John :: s_1234567890 :: []) empty_state)) s_John
    = Some r
    /\ name_value (name r) = s_John
    /\ phones r = earlier ++ [ {| phone_value := s_1234567890 |} ].
Proof.
  apply (typed_contact_is_found_as_typed no_lower s_add_line [65; 68; 68]
           s_John s_1234567890 [] empty_state).
  - apply reachable_empty.
  - reflexivity.
  - reflexivity.
Defined.

(* ================================================================== *)
(** * More on [get_upcoming_birthdays] *)
(* ================================================================== *)

Lemma records_live (st : state) (r : record) :
  In r (records st) -> exists l, heap st !! l = Some r.
Proof.
  unfold records. induction (dict_values (data st)) as [|l ls IH]; simpl; [intros [] |].
  destruct (heap st !! l) as [x|] eqn:E; [| exact IH].
  intros [<- | H]; [exists l; exact E | apply IH, H].
Qed.

Lemma project_valid (b : date) (y : Z) :
  valid_date b = true ->
  ~ (month b = 2 /\ day b = 29) ->
  1 <= y <= 9999 ->
  valid_date (project b y) = true.
Proof.
  rewrite !valid_date_iff. unfold project. cbn [year month day].
  intros [Hy [Hm Hd]] Hfeb Hyr. split; [exact Hyr |]. split; [exact Hm |].
  unfold _days_in_month in *.
  destruct ((month b =? 2) && _is_leap (year b)) eqn:E1;
    destruct ((month b =? 2) && _is_leap y) eqn:E2; try lia.
  - apply andb_true_iff in E1. destruct E1 as [E1 _]. apply Z.eqb_eq in E1.
    rewrite E1 in *. norm_index. lia.
  - apply andb_true_iff in E2. destruct E2 as [E2 _]. apply Z.eqb_eq in E2.
    rewrite E2 in *. norm_index. lia.
Qed.

(** X23 ([AddressBook.get_upcoming_birthdays]): on a reachable book, for a
    reference date before the year 9999, the call returns a list whenever no
    stored birthday is a 29 February. *)
Theorem upcoming_birthdays_returns_without_leap_days (today : date) (st : state) :
  reachable st ->
  valid_date today = true ->
  year today < 9999 ->
  (forall r b, In r (records st) -> birthday r = Some b ->
     ~ (month (birthday_date b) = 2 /\ day (birthday_date b) = 29)) ->
  exists out, get_upcoming_birthdays today st = Ok out.
Proof.
  intros Hr Hv Hy Hfeb.
  destruct (reachable_sound st Hr) as [Hh _].
  apply valid_date_iff in Hv. destruct Hv as [Hty _].
  assert (all_projectable today (records st) = true) as Hall.
  { unfold all_projectable. apply forallb_forall. intros r Hin.
    destruct (birthday r) as [b|] eqn:Hb; [| reflexivity].
    destruct (records_live st r Hin) as [l Hl].
    destruct (Hh l r Hl) as [_ [_ [_ Hbd]]].
    destruct (Hbd b Hb) as [td [tm [ty [_ [_ [_ [_ Hvb]]]]]]].
    specialize (Hfeb r b Hin Hb).
    unfold projectable, this_year.
    pose proof (project_valid _ (year today) Hvb Hfeb ltac:(lia)) as P1.
    pose proof (project_valid _ (year today + 1) Hvb Hfeb ltac:(lia)) as P2.
    rewrite P1. destruct (date_ltb _ _); [rewrite P2 | rewrite P1]; reflexivity. }
  destruct (upcoming_loop_total today (records st) [] Hall) as [out [Ho _]].
  exists out. exact Ho.
Qed.

Lemma upcoming_birthdays_returns_without_leap_days_witness :
  exists out, get_upcoming_birthdays day_2024_10_28 autumn_book = Ok out.
Proof.
  apply (upcoming_birthdays_returns_without_leap_days day_2024_10_28 autumn_book).
  - apply reachable_run_all, reachable_empty.
  - reflexivity.
  - vm_compute. reflexivity.
  - intros r b [<- | [<- | []]] [= <-]; vm_compute; intros [H _]; discriminate.
Defined.

(** X24 ([AddressBook.get_upcoming_birthdays]): the text of every returned
    entry is that of a date from Monday to Friday that lies from 0 to 9 days
    after the reference date. *)
Theorem congratulation_date_is_a_weekday_within_nine_days
    (today : date) (st : state) (out : list entry) (e : entry) :
  get_upcoming_birthdays today st = Ok out ->
  In e out ->
  exists c,
    written_DD_MM_Y (congratulation_date e) c
    /\ valid_date c = true
    /\ 0 <= weekday c <= 4
    /\ 0 <= toordinal c - toordinal today <= 9.
Proof.
  intros Hout He. unfold get_upcoming_birthdays in Hout.
  destruct (upcoming_loop_entries today _ _ _ e Hout He) as [[] | [r [Hin Hr]]].
  pose proof (upcoming_entry_ok today r _ Hr) as Hp.
  destruct (birthday r) as [b|] eqn:Hb; [| discriminate].
  pose proof (upcoming_entry_projectable today r b Hb Hp) as Hs.
  destruct (in_window today r) eqn:Hw; [| rewrite Hs in Hr; discriminate].
  destruct Hs as [c [Hc [Hvc [Hwd [Hsat Hsun]]]]].
  rewrite Hc in Hr. injection Hr as <-.
  unfold in_window in Hw. rewrite Hb in Hw.
  apply andb_true_iff in Hw. destruct Hw as [Hlo Hhi].
  apply Z.leb_le in Hlo, Hhi. unfold days_until in *.
  pose proof (weekday_range (this_year today (birthday_date b))) as Hrg.
  pose proof (weekday_range c) as Hrc.
  exists c. split; [apply strftime_written_unpadded, Hvc |]. split; [exact Hvc |].
  destruct (Z_le_gt_dec (weekday (this_year today (birthday_date b))) 4) as [H4 | H4].
  - rewrite (Hwd H4). lia.
  - destruct (Z.eq_dec (weekday (this_year today (birthday_date b))) 5) as [H5 | H5].
    + destruct (Hsat H5) as [Ho Hm]. lia.
    + destruct (Hsun ltac:(lia)) as [Ho Hm]. lia.
Qed.

Lemma congratulation_date_is_a_weekday_within_nine_days_witness :
  exists c,
    written_DD_MM_Y
      (congratulation_date
         {| entry_name := s_Ann; congratulation_date := s_04_11_2024 |}) c
    /\ valid_date c = true
    /\ 0 <= weekday c <= 4
    /\ 0 <= toordinal c - toordinal day_2024_10_28 <= 9.
Proof.
  apply (congratulation_date_is_a_weekday_within_nine_days day_2024_10_28 autumn_book
           [ {| entry_name := s_John; congratulation_date := s_01_11_2024 |};
             {| entry_name := s_Ann; congratulation_date := s_04_11_2024 |} ]).
  - reflexivity.
  - right. left. reflexivity.
Defined.

Lemma days_before_month_bounds (y m : Z) :
  1 <= m <= 12 ->
  0 <= _days_before_month y m
  /\ _days_before_month y m + _days_in_month y m
     <= 365 + (if _is_leap y then 1 else 0)
  /\ (m < 12 ->
      _days_before_month y (m + 1) = _days_before_month y m + _days_in_month y m).
Proof.
  intros Hm. unfold _days_before_month, _days_in_month.
  month_cases m; destruct (_is_leap y); norm_index;
    cbv [Z.add Pos.add Pos.succ Z.ltb Z.eqb Z.compare Pos.compare Pos.compare_cont andb
         Pos.eqb Pos.add_carry];
    lia.
Qed.

Lemma days_before_month_mono (y m m' : Z) :
  1 <= m -> m <= m' -> m' <= 12 ->
  _days_before_month y m <= _days_before_month y m'.
Proof.
  intros H1 H H12. assert (exists k, m' = m + Z.of_nat k) as [k ->]
    by (exists (Z.to_nat (m' - m)); lia).
  clear H. induction k as [|k IH].
  - replace (m + Z.of_nat 0) with m by lia. lia.
  - replace (m + Z.of_nat (S k)) with (m + Z.of_nat k + 1) in * by lia.
    destruct (days_before_month_bounds y (m + Z.of_nat k) ltac:(lia)) as [_ [_ Hs]].
    rewrite Hs by lia.
    assert (0 <= _days_in_month y (m + Z.of_nat k)).
    { unfold _days_in_month.
      assert (1 <= m + Z.of_nat k <= 12) as Hm by lia. revert Hm.
      generalize (m + Z.of_nat k). intros mm Hm.
      month_cases mm; destruct (_is_leap y); norm_index; cbn; lia. }
    specialize (IH ltac:(lia)). lia.
Qed.

(** The order of dates is the order of their ordinals. *)
Lemma date_ltb_ordinal (a b : date) :
  valid_date a = true -> valid_date b = true ->
  date_ltb a b = true -> toordinal a < toordinal b.
Proof.
  rewrite !valid_date_iff. intros [Hya [Hma Hda]] [Hyb [Hmb Hdb]].
  unfold date_ltb, toordinal, _ymd2ord.
  repeat (rewrite orb_true_iff || rewrite andb_true_iff).
  rewrite !Z.ltb_lt, !Z.eqb_eq.
  pose proof (day_of_year_bounds _ _ _ Hma Hda) as Ba.
  pose proof (day_of_year_bounds _ _ _ Hmb Hdb) as Bb.
  intros [Hy | [Hy [Hm | [Hm Hd]]]].
  - pose proof (days_before_year_succ (year a)) as Hs.
    pose proof (days_before_year_mono (year a + 1) (year b) ltac:(lia)) as Hmo.
    lia.
  - rewrite Hy in *.
    destruct (days_before_month_bounds (year b) (month a) Hma) as [_ [_ Hs]].
    pose proof (days_before_month_mono (year b) (month a + 1) (month b)
                  ltac:(lia) ltac:(lia) ltac:(lia)) as Hmo.
    rewrite Hs in Hmo by lia. lia.
  - rewrite Hy, Hm in *. lia.
Qed.

Lemma date_not_ltb_ordinal (a b : date) :
  valid_date a = true -> valid_date b = true ->
  date_ltb a b = false -> toordinal b <= toordinal a.
Proof.
  intros Ha Hb Hlt.
  destruct (date_ltb b a) eqn:E.
  - pose proof (date_ltb_ordinal b a Hb Ha E). lia.
  - assert (a = b) as ->; [| lia].
    unfold date_ltb in *.
    repeat (rewrite orb_false_iff in Hlt || rewrite andb_false_iff in Hlt).
    repeat (rewrite orb_false_iff in E || rewrite andb_false_iff in E).
    rewrite !Z.ltb_ge, !Z.eqb_neq in Hlt, E.
    destruct a as [ya ma da], b as [yb mb db]. cbn [year month day] in *.
    assert (ya = yb) by lia. assert (ma = mb) by lia. assert (da = db) by lia.
    congruence.
Qed.

(** X25 ([AddressBook.get_upcoming_birthdays]): the number of days until the
    birthday is never negative and never more than 365, so a birthday is
    left out only because it is more than 7 days ahead. *)
Theorem days_until_birthday_is_not_negative (today b : date) :
  valid_date today = true ->
  projectable today b = true ->
  0 <= days_until today b <= 365.
Proof.
  intros Hv Hp. destruct (projectable_split _ _ Hp) as [H1 H2].
  unfold days_until, this_year in *.
  pose proof (toordinal_bounds today Hv) as Bt.
  destruct (date_ltb (project b (year today)) today) eqn:E.
  - pose proof (date_ltb_ordinal _ _ H1 Hv E) as Hlt.
    apply valid_date_iff in H1, H2, Hv. unfold project in *. cbn [year month day] in *.
    destruct H1 as [_ [Hm Hd1]], H2 as [_ [_ Hd2]], Hv as [_ [Hmt Hdt]].
    pose proof (day_of_year_bounds _ _ _ Hm Hd1) as B1.
    pose proof (day_of_year_bounds _ _ _ Hm Hd2) as B2.
    pose proof (day_of_year_bounds _ _ _ Hmt Hdt) as B3.
    pose proof (days_before_year_succ (year today)) as Hs.
    unfold toordinal, _ymd2ord in *. cbn [year month day] in *.
    assert (_days_before_month (year today + 1) (month b)
            <= _days_before_month (year today) (month b)
               + (if _is_leap (year today) then 0 else 1)) as Hdbm.
    { unfold _days_before_month.
      destruct ((2 <? month b) && _is_leap (year today + 1)) eqn:L1;
        destruct ((2 <? month b) && _is_leap (year today)) eqn:L2;
        destruct (_is_leap (year today)) eqn:L; lia. }
    destruct (_is_leap (year today)); lia.
  - pose proof (date_not_ltb_ordinal _ _ H1 Hv E) as Hge.
    apply valid_date_iff in H1, Hv. unfold project in *. cbn [year month day] in *.
    destruct H1 as [_ [Hm Hd1]], Hv as [_ [Hmt Hdt]].
    pose proof (day_of_year_bounds _ _ _ Hm Hd1) as B1.
    pose proof (day_of_year_bounds _ _ _ Hmt Hdt) as B3.
    unfold toordinal, _ymd2ord in *. cbn [year month day] in *.
    destruct (_is_leap (year today)); lia.
Qed.

Lemma days_until_birthday_is_not_negative_witness :
  0 <= days_until day_2024_10_28 {| year := 1990; month := 11; day := 3 |} <= 365.
Proof.
  apply (days_until_birthday_is_not_negative day_2024_10_28
           {| year := 1990; month := 11; day := 3 |}).
  - reflexivity.
  - reflexivity.
Defined.

(* ================================================================== *)
(** * The handler [birthdays] and sequences of commands *)
(* ================================================================== *)

Lemma add_days_raises_only_out_of_range (d : date) (k : Z) (e : exn) :
  add_days d k = Raise e ->
  ~ (0 < toordinal d + k <= _MAXORDINAL).
Proof.
  unfold add_days.
  destruct ((0 <? toordinal d + k) && (toordinal d + k <=? _MAXORDINAL)) eqn:E;
    [discriminate |].
  intros _ [H1 H2]. apply andb_false_iff in E.
  rewrite Z.ltb_ge, Z.leb_gt in E. lia.
Qed.

Lemma upcoming_entry_raises_ValueError (today : date) (r : record) (e : exn) :
  upcoming_entry today r = Raise e -> exists m, e = ValueError m.
Proof.
  unfold upcoming_entry. destruct (birthday r) as [b|]; [| discriminate]. cbv zeta.
  destruct (replace_year (birthday_date b) (year today)) as [d1|e1] eqn:E1; cbn [rbind];
    [| intros [= <-]; eapply check_date_fields_raises_ValueError, E1].
  apply replace_year_ok in E1. destruct E1 as [-> Hv1].
  set (bty := if date_ltb (project (birthday_date b) (year today)) today
              then replace_year (birthday_date b) (year today + 1)
              else Ok (project (birthday_date b) (year today))).
  destruct bty as [d2|e2] eqn:E2; cbn [rbind].
  - assert (valid_date d2 = true) as Hv2.
    { subst bty. destruct (date_ltb _ _).
      - apply replace_year_ok in E2. destruct E2 as [-> H]. exact H.
      - injection E2 as <-. exact Hv1. }
    destruct (_ && _); [| discriminate].
    destruct (congratulation_date_exists d2 Hv2) as [c [-> _]]. cbn [rbind].
    discriminate.
  - subst bty. destruct (date_ltb _ _); [| discriminate].
    intros [= <-]. eapply check_date_fields_raises_ValueError, E2.
Qed.

Lemma upcoming_loop_raises_ValueError (today : date) (rs : list record)
    (acc : list entry) (e : exn) :
  upcoming_loop today rs acc = Raise e -> exists m, e = ValueError m.
Proof.
  revert acc. induction rs as [|r rs IH]; intros acc; simpl; [discriminate |].
  destruct (upcoming_entry today r) as [x|e1] eqn:E; cbn [rbind].
  - apply IH.
  - intros [= <-]. eapply upcoming_entry_raises_ValueError, E.
Qed.

(** X26 (handler [birthdays], [AddressBook.get_upcoming_birthdays]): when
    the book holds a contact born on 29 February and the reference year is
    not a leap year, the command answers with the value-error text instead
    of a list: no upcoming birthday of any contact is shown. *)
Theorem birthdays_command_fails_on_leap_day_contact
    (today : date) (st : state) (r : record) (b : Birthday) :
  In r (records st) ->
  birthday r = Some b ->
  month (birthday_date b) = 2 ->
  day (birthday_date b) = 29 ->
  _is_leap (year today) = false ->
  exists m, birthdays today st = ShownError (ValueErrorText m).
Proof.
  intros Hin Hb Hm Hd Hl.
  pose proof (leap_day_birthday_raises today st r b Hin Hb Hm Hd Hl) as Hbad.
  unfold birthdays.
  destruct (get_upcoming_birthdays today st) as [out|e] eqn:E; [discriminate |].
  destruct (upcoming_loop_raises_ValueError today _ _ e E) as [m ->].
  exists m. reflexivity.
Qed.

Lemma birthdays_command_fails_on_leap_day_contact_witness :
  exists m, birthdays day_2023_01_01 leap_day_and_john_book
            = ShownError (ValueErrorText m).
Proof.
  apply (birthdays_command_fails_on_leap_day_contact day_2023_01_01
           leap_day_and_john_book
           {| name := {| name_value := s_Ann |};
              phones := [ {| phone_value := s_1234567890 |} ];
              birthday := Some {| birthday_value := s_29_02_2000;
                                  birthday_date :=
                                    {| year := 2000; month := 2; day := 29 |} |} |}
           {| birthday_value := s_29_02_2000;
              birthday_date := {| year := 2000; month := 2; day := 29 |} |}).
  - left. reflexivity.
  - reflexivity.
  - reflexivity.
  - reflexivity.
  - reflexivity.
Defined.

(** X27 ([add_contact] twice): adding a phone under a new name and then a
    second phone under the same name answers "Contact added." and then
    "Contact updated.", and leaves one contact holding the two phones in
    that order. *)
Theorem add_contact_twice_collects_phones (st : state) (nm p1 p2 : str) :
  dict_get (data st) nm = None ->
  strip nm = nm ->
  nm <> [] ->
  is_ok (Phone_init p1) = true ->
  is_ok (Phone_init p2) = true ->
  exists st1 st2 r,
    add_contact [nm; p1] st = (ContactAdded, st1)
    /\ add_contact [nm; p2] st1 = (ContactUpdated, st2)
    /\ lookup_record st2 nm = Some r
    /\ name_value (name r) = nm
    /\ phones r = [ {| phone_value := p1 |}; {| phone_value := p2 |} ]
    /\ birthday r = None
    /\ keys st2 = keys st ++ [nm].
Proof.
  intros Hk Hs Hne Hv1 Hv2.
  assert (strip nm <> []) as Hne' by (rewrite Hs; exact Hne).
  pose proof (add_contact_new_valid st nm p1 [] Hk Hne' Hv1) as E1.
  rewrite Hs in E1.
  set (st1 := {| heap := heap st ++ [with_phone (fresh_record nm) p1];
                 data := dict_set (data st) nm (length (heap st)) |}) in *.
  assert (dict_get (data st1) nm = Some (length (heap st))) as Hk1
    by apply dict_get_set_same.
  assert (heap st1 !! length (heap st) = Some (with_phone (fresh_record nm) p1)) as Hl1
    by apply lookup_fresh.
  pose proof (add_contact_known_valid st1 nm p2 [] _ _ Hk1 Hl1 Hv2) as E2.
  eexists. eexists. eexists.
  split; [exact E1 |]. split; [exact E2 |].
  split; [eapply lookup_with_object_same; eassumption |].
  split; [exact Hs |]. split; [reflexivity |]. split; [reflexivity |].
  unfold keys, with_object, st1. cbn [data]. rewrite dict_set_keys.
  unfold dict_contains. rewrite Hk. reflexivity.
Qed.

Lemma add_contact_twice_collects_phones_witness :
  exists st1 st2 r,
    add_contact [s_John; s_1234567890] empty_state = (ContactAdded, st1)
    /\ add_contact [s_John; s_5555555555] st1 = (ContactUpdated, st2)
    /\ lookup_record st2 s_John = Some r
    /\ name_value (name r) = s_John
    /\ phones r = [ {| phone_value := s_1234567890 |};
                    {| phone_value := s_5555555555 |} ]
    /\ birthday r = None
    /\ keys st2 = keys empty_state ++ [s_John].
Proof.
  apply (add_contact_twice_collects_phones empty_state s_John s_1234567890 s_5555555555).
  - reflexivity.
  - reflexivity.
  - discriminate.
  - reflexivity.
  - reflexivity.
Defined.

(** X28 ([Record.edit_phone] twice): changing a number to a well-formed
    number the record does not hold before that position, and changing it
    back, gives the record as it was. *)
Theorem edit_phone_there_and_back (self : record) (a b : str)
    (before after : list Phone) :
  phones self = before ++ {| phone_value := a |} :: after ->
  ~ In a (map phone_value before) ->
  ~ In b (map phone_value before) ->
  is_ok (Phone_init a) = true ->
  is_ok (Phone_init b) = true ->
  edit_phone b a (snd (edit_phone a b self)) = (Ok tt, self).
Proof.
  intros Hs Ha Hb Hva Hvb.
  pose proof (edit_phone_loop_split self a b [] before after
                {| phone_value := a |} Hs eq_refl Ha Hvb) as E1.
  change (length (@nil Phone)) with 0%nat in E1.
  unfold edit_phone at 2. rewrite Hs, E1. cbn [snd app].
  set (mid := set_phones self (before ++ {| phone_value := b |} :: after)).
  pose proof (edit_phone_loop_split mid b a [] before after
                {| phone_value := b |} eq_refl eq_refl Hb Hva) as E2.
  change (length (@nil Phone)) with 0%nat in E2.
  unfold edit_phone. change (phones mid) with (before ++ {| phone_value := b |} :: after).
  rewrite E2. cbn [app]. f_equal. unfold mid, set_phones. cbn [name phones birthday].
  rewrite <- Hs. destruct self; reflexivity.
Qed.

Lemma edit_phone_there_and_back_witness :
  edit_phone s_0987654321 s_5555555555
    (snd (edit_phone s_5555555555 s_0987654321 john_two_phones))
  = (Ok tt, john_two_phones).
Proof.
  apply (edit_phone_there_and_back john_two_phones s_5555555555 s_0987654321
           [ {| phone_value := s_1234567890 |} ] []).
  - reflexivity.
  - simpl. intros [H | []]. discriminate.
  - simpl. intros [H | []]. discriminate.
  - reflexivity.
  - reflexivity.
Defined.
